(** * hintents: endpoint configuration and circuit-breaker state

    A shallow embedding of
    - [internal/rpc/builder.go]  (Go: [ParseHeaders], the [ClientOption]
      functions, [NewClient], [validate], [build]), and
    - [rpc-config.ts]            (TypeScript: [RPCConfigParser.parseUrls],
      [parseHeaders], [isValidUrl], [loadConfig]),
    together with the properties the specification states about them.

    Strings are byte strings ([string], UTF-8 encoded), Go maps and
    JavaScript objects used as maps are [gmap string string]. *)

From Stdlib Require Import ZArith NArith Ascii String List Bool Lia.
From stdpp Require Import base option list gmap strings pretty.

Set Warnings "-register-all".

Local Open Scope stdpp_scope.

(* ===================================================================== *)
(** * Byte strings                                                        *)
(* ===================================================================== *)

Module Str.

Definition byte (c : ascii) : N := N_of_ascii c.

Definition is_empty (s : string) : bool :=
  match s with "" => true | _ => false end.

(** [s[:n]] and [s[n:]] (Go), [s.slice(0, n)] and [s.slice(n)] (JS) for
    [n] within bounds. *)
Fixpoint take (n : nat) (s : string) : string :=
  match n, s with
  | S n', String c r => String c (take n' r)
  | _, _ => ""
  end.

Fixpoint drop (n : nat) (s : string) : string :=
  match n, s with
  | S n', String _ r => drop n' r
  | _, _ => s
  end.

(** Index of the first byte satisfying [p]; [None] is the [-1] of
    [strings.IndexAny] and [String.prototype.indexOf]. *)
Fixpoint index_where (p : ascii → bool) (s : string) : option nat :=
  match s with
  | "" => None
  | String c r => if p c then Some 0 else S <$> index_where p r
  end.

Definition index_of (c : ascii) : string → option nat :=
  index_where (Ascii.eqb c).

(** [strings.Split(s, sep)] and [s.split(sep)] for a one-byte separator:
    always at least one piece, separators removed, empty pieces kept. *)
Fixpoint split (sep : ascii) (s : string) : list string :=
  match s with
  | "" => [""]
  | String c r =>
      if Ascii.eqb c sep then "" :: split sep r
      else match split sep r with
           | h :: t => String c h :: t
           | [] => [String c ""]
           end
  end.

Fixpoint has_prefix (p s : string) : bool :=
  match p, s with
  | "", _ => true
  | String a p', String b s' => Ascii.eqb a b && has_prefix p' s'
  | _, _ => false
  end.

(** ** White space

    Both languages trim by Unicode code point.  On UTF-8 bytes a white
    space code point is one ASCII byte or one of a few two- and
    three-byte sequences.  The two sets differ in two code points:
    Go's [unicode.IsSpace] has U+0085, JavaScript's [trim] has U+FEFF. *)

Inductive lang := Go | JS.

(** U+0009..U+000D and U+0020. *)
Definition space1 (a : ascii) : bool :=
  let n := byte a in ((9 <=? n) && (n <=? 13) || (n =? 32))%N.

(** U+00A0 (C2 A0); U+0085 (C2 85) in Go only. *)
Definition space2 (l : lang) (a b : ascii) : bool :=
  (byte a =? 0xC2)%N &&
  ((byte b =? 0xA0)%N ||
   match l with Go => (byte b =? 0x85)%N | JS => false end).

(** U+1680 (E1 9A 80), U+2000..U+200A (E2 80 80..8A), U+2028, U+2029,
    U+202F (E2 80 A8, A9, AF), U+205F (E2 81 9F), U+3000 (E3 80 80);
    U+FEFF (EF BB BF) in JavaScript only. *)
Definition space3 (l : lang) (a b c : ascii) : bool :=
  let '(x, y, z) := (byte a, byte b, byte c) in
  ((x =? 0xE1) && (y =? 0x9A) && (z =? 0x80) ||
   (x =? 0xE2) && (y =? 0x80) &&
     ((0x80 <=? z) && (z <=? 0x8A) || (z =? 0xA8) || (z =? 0xA9) || (z =? 0xAF)) ||
   (x =? 0xE2) && (y =? 0x81) && (z =? 0x9F) ||
   (x =? 0xE3) && (y =? 0x80) && (z =? 0x80) ||
   match l with
   | JS => (x =? 0xEF) && (y =? 0xBB) && (z =? 0xBF)
   | Go => false
   end)%N.

(** Drop leading white space code points. *)
Fixpoint trim_left (l : lang) (s : string) : string :=
  match s with
  | "" => ""
  | String a r =>
      if space1 a then trim_left l r
      else match r with
           | "" => s
           | String b r2 =>
               if space2 l a b then trim_left l r2
               else match r2 with
                    | "" => s
                    | String c r3 =>
                        if space3 l a b c then trim_left l r3 else s
                    end
           end
  end.

(** The same scan over the reversed string, so the byte sequences are
    matched last byte first. *)
Fixpoint trim_left_rev (l : lang) (s : string) : string :=
  match s with
  | "" => ""
  | String a r =>
      if space1 a then trim_left_rev l r
      else match r with
           | "" => s
           | String b r2 =>
               if space2 l b a then trim_left_rev l r2
               else match r2 with
                    | "" => s
                    | String c r3 =>
                        if space3 l c b a then trim_left_rev l r3 else s
                    end
           end
  end.

Definition trim_right (l : lang) (s : string) : string :=
  String.rev (trim_left_rev l (String.rev s)).

(** [strings.TrimSpace] ([l = Go]) and [String.prototype.trim]
    ([l = JS]). *)
Definition trim (l : lang) (s : string) : string :=
  trim_right l (trim_left l s).

End Str.

(* ===================================================================== *)
(** * JSON text                                                           *)
(* ===================================================================== *)

(** Both parsers first hand the input to the platform's JSON decoder
    ([json.Unmarshal], [JSON.parse]).  The decoder is modelled by a lexer
    and a parser for the JSON grammar of RFC 8259; a number keeps its
    lexeme.  A lone surrogate escape decodes to U+FFFD, as in Go. *)

Module Json.

Inductive value :=
| JNull
| JBool (b : bool)
| JNumber (lexeme : string)
| JString (s : string)
| JArray (elems : list value)
| JObject (members : list (string * value)).

Inductive token :=
| TLBrace | TRBrace | TLBracket | TRBracket | TColon | TComma
| TTrue | TFalse | TNull
| TStr (s : string)
| TNum (lexeme : string).

Definition is_digit (c : ascii) : bool :=
  let n := Str.byte c in ((48 <=? n) && (n <=? 57))%N.

Definition is_ws (c : ascii) : bool :=
  let n := Str.byte c in ((n =? 32) || (n =? 9) || (n =? 10) || (n =? 13))%N.

Definition hex_val (c : ascii) : option N :=
  let n := Str.byte c in
  if ((48 <=? n) && (n <=? 57))%N then Some (n - 48)%N
  else if ((65 <=? n) && (n <=? 70))%N then Some (n - 55)%N
  else if ((97 <=? n) && (n <=? 102))%N then Some (n - 87)%N
  else None.

Definition hex4 (a b c d : ascii) : option N :=
  x ← hex_val a; y ← hex_val b; z ← hex_val c; w ← hex_val d;
  Some (x * 4096 + y * 256 + z * 16 + w)%N.

Definition chr (n : N) : ascii := ascii_of_N n.

(** UTF-8 encoding of a code point. *)
Definition utf8 (n : N) : string :=
  if (n <? 0x80)%N then String (chr n) ""
  else if (n <? 0x800)%N then
    String (chr (0xC0 + n / 64)) (String (chr (0x80 + n mod 64)) "")
  else if (n <? 0x10000)%N then
    String (chr (0xE0 + n / 4096))
      (String (chr (0x80 + (n / 64) mod 64))
         (String (chr (0x80 + n mod 64)) ""))
  else
    String (chr (0xF0 + n / 262144))
      (String (chr (0x80 + (n / 4096) mod 64))
         (String (chr (0x80 + (n / 64) mod 64))
            (String (chr (0x80 + n mod 64)) ""))).

Definition is_high_surrogate (n : N) : bool := ((0xD800 <=? n) && (n <=? 0xDBFF))%N.
Definition is_low_surrogate (n : N) : bool := ((0xDC00 <=? n) && (n <=? 0xDFFF))%N.

(** The body of a string literal, after the opening quote: the decoded
    contents and the input after the closing quote. *)
Fixpoint lex_string (s : string) : option (string * string) :=
  match s with
  | "" => None
  | String c r =>
      if Ascii.eqb c "034"%char then Some ("", r)
      else if Ascii.eqb c "\"%char then
        match r with
        | String e r1 =>
            let simple (b : N) :=
              '(t, rest) ← lex_string r1; Some (String (chr b) t, rest) in
            if Ascii.eqb e "034"%char then simple 34%N
            else if Ascii.eqb e "\"%char then simple 92%N
            else if Ascii.eqb e "/"%char then simple 47%N
            else if Ascii.eqb e "b"%char then simple 8%N
            else if Ascii.eqb e "f"%char then simple 12%N
            else if Ascii.eqb e "n"%char then simple 10%N
            else if Ascii.eqb e "r"%char then simple 13%N
            else if Ascii.eqb e "t"%char then simple 9%N
            else if Ascii.eqb e "u"%char then
              match r1 with
              | String h1 (String h2 (String h3 (String h4 r2))) =>
                  match hex4 h1 h2 h3 h4 with
                  | None => None
                  | Some hi =>
                      let single :=
                        let cp := if is_high_surrogate hi || is_low_surrogate hi
                                  then 0xFFFD%N else hi in
                        '(t, rest) ← lex_string r2; Some (utf8 cp +:+ t, rest) in
                      if is_high_surrogate hi then
                        match r2 with
                        | String b1 (String b2 (String l1 (String l2 (String l3 (String l4 r3))))) =>
                            if Ascii.eqb b1 "\"%char && Ascii.eqb b2 "u"%char then
                              match hex4 l1 l2 l3 l4 with
                              | Some lo =>
                                  if is_low_surrogate lo then
                                    let cp := (0x10000 + (hi - 0xD800) * 1024 + (lo - 0xDC00))%N in
                                    '(t, rest) ← lex_string r3; Some (utf8 cp +:+ t, rest)
                                  else single
                              | None => single
                              end
                            else single
                        | _ => single
                        end
                      else single
                  end
              | _ => None
              end
            else None
        | "" => None
        end
      else if (Str.byte c <? 32)%N then None
      else '(t, rest) ← lex_string r; Some (String c t, rest)
  end.

Fixpoint span_digits (s : string) : string * string :=
  match s with
  | String c r =>
      if is_digit c then let '(d, rest) := span_digits r in (String c d, rest)
      else ("", s)
  | "" => ("", "")
  end.

(** A number is an optional minus sign, an integer part (a single zero,
    or a non-zero digit followed by digits), an optional fraction (a dot
    and one or more digits) and an optional exponent. *)
Definition lex_int (s : string) : option (string * string) :=
  match s with
  | String c r =>
      if Ascii.eqb c "0"%char then Some ("0", r)
      else if is_digit c then
        let '(d, rest) := span_digits r in Some (String c d, rest)
      else None
  | "" => None
  end.

Definition lex_frac (s : string) : option (string * string) :=
  match s with
  | String c r =>
      if Ascii.eqb c "."%char then
        match span_digits r with
        | ("", _) => None
        | (d, rest) => Some (String c d, rest)
        end
      else Some ("", s)
  | "" => Some ("", "")
  end.

Definition lex_exp (s : string) : option (string * string) :=
  match s with
  | String c r =>
      if Ascii.eqb c "e"%char || Ascii.eqb c "E"%char then
        let '(sign, r1) :=
          match r with
          | String g r' =>
              if Ascii.eqb g "+"%char || Ascii.eqb g "-"%char
              then (String g "", r') else ("", r)
          | "" => ("", r)
          end in
        match span_digits r1 with
        | ("", _) => None
        | (d, rest) => Some (String c (sign +:+ d), rest)
        end
      else Some ("", s)
  | "" => Some ("", "")
  end.

Definition lex_number (s : string) : option (string * string) :=
  let '(sign, r0) :=
    match s with
    | String c r => if Ascii.eqb c "-"%char then ("-", r) else ("", s)
    | "" => ("", s)
    end in
  '(i, r1) ← lex_int r0;
  '(f, r2) ← lex_frac r1;
  '(e, r3) ← lex_exp r2;
  Some (sign +:+ i +:+ f +:+ e, r3).

(** Every round consumes at least one byte, so [String.length s] rounds
    are enough for [s]. *)
Fixpoint lex (fuel : nat) (s : string) : option (list token) :=
  match s with
  | "" => Some []
  | String c r =>
      match fuel with
      | O => None
      | S fuel' =>
          let one (t : token) := (t ::.) <$> lex fuel' r in
          if is_ws c then lex fuel' r
          else if Ascii.eqb c "{"%char then one TLBrace
          else if Ascii.eqb c "}"%char then one TRBrace
          else if Ascii.eqb c "["%char then one TLBracket
          else if Ascii.eqb c "]"%char then one TRBracket
          else if Ascii.eqb c ":"%char then one TColon
          else if Ascii.eqb c ","%char then one TComma
          else if Ascii.eqb c "034"%char then
            '(t, rest) ← lex_string r; (TStr t ::.) <$> lex fuel' rest
          else if Str.has_prefix "true" s then (TTrue ::.) <$> lex fuel' (Str.drop 4 s)
          else if Str.has_prefix "false" s then (TFalse ::.) <$> lex fuel' (Str.drop 5 s)
          else if Str.has_prefix "null" s then (TNull ::.) <$> lex fuel' (Str.drop 4 s)
          else '(n, rest) ← lex_number s; (TNum n ::.) <$> lex fuel' rest
      end
  end.

(** Recursive descent over the tokens.  Every call consumes at least one
    token, so [length ts] levels are enough for [ts]. *)
Fixpoint parse_value (fuel : nat) (ts : list token) {struct fuel}
  : option (value * list token) :=
  match fuel with
  | O => None
  | S f =>
      match ts with
      | TNull :: r => Some (JNull, r)
      | TTrue :: r => Some (JBool true, r)
      | TFalse :: r => Some (JBool false, r)
      | TNum n :: r => Some (JNumber n, r)
      | TStr s :: r => Some (JString s, r)
      | TLBracket :: TRBracket :: r => Some (JArray [], r)
      | TLBracket :: r =>
          '(v, r') ← parse_value f r; parse_elems f [v] r'
      | TLBrace :: TRBrace :: r => Some (JObject [], r)
      | TLBrace :: TStr k :: TColon :: r =>
          '(v, r') ← parse_value f r; parse_members f [(k, v)] r'
      | _ => None
      end
  end
with parse_elems (fuel : nat) (acc : list value) (ts : list token) {struct fuel}
  : option (value * list token) :=
  match fuel with
  | O => None
  | S f =>
      match ts with
      | TRBracket :: r => Some (JArray (rev acc), r)
      | TComma :: r =>
          '(v, r') ← parse_value f r; parse_elems f (v :: acc) r'
      | _ => None
      end
  end
with parse_members (fuel : nat) (acc : list (string * value)) (ts : list token)
  {struct fuel} : option (value * list token) :=
  match fuel with
  | O => None
  | S f =>
      match ts with
      | TRBrace :: r => Some (JObject (rev acc), r)
      | TComma :: TStr k :: TColon :: r =>
          '(v, r') ← parse_value f r; parse_members f ((k, v) :: acc) r'
      | _ => None
      end
  end.

(** To write a JSON text as a literal: an apostrophe stands for a double
    quote. *)
Fixpoint text (s : string) : string :=
  match s with
  | "" => ""
  | String c r =>
      String (if Ascii.eqb c "'"%char then "034"%char else c) (text r)
  end.

(** The decoder: [None] is a syntax error. *)
Definition parse (s : string) : option value :=
  ts ← lex (String.length s) s;
  match parse_value (S (length ts)) ts with
  | Some (v, []) => Some v
  | _ => None
  end.

End Json.

(* ===================================================================== *)
(** * Go: [ParseHeaders]  (internal/rpc/builder.go)                       *)
(* ===================================================================== *)

Module GoRpc.

(** [json.Unmarshal([]byte(input), &obj)] for [var obj map[string]string]:
    [None] is a non-nil error, [Some m] the decoded map.  The decoder
    reports a syntax error, or an [UnmarshalTypeError] when the document
    is not an object or [null], or when a member's value is not a string
    or [null]; [null] leaves the element at its zero value.  A nil map is
    represented by the empty map. *)
Fixpoint members_to_map (ms : list (string * Json.value))
    (obj : gmap string string) : option (gmap string string) :=
  match ms with
  | [] => Some obj
  | (k, Json.JString v) :: r => members_to_map r (<[k:=v]> obj)
  | (k, Json.JNull) :: r => members_to_map r (<[k:=""]> obj)
  | _ => None
  end.



Definition unmarshal_string_map (input : string) : option (gmap string string) :=
  match Json.parse input with
  | Some Json.JNull => Some ∅
  | Some (Json.JObject ms) => members_to_map ms ∅
  | _ => None
  end.

Definition is_separator (c : ascii) : bool :=
  Ascii.eqb c "="%char || Ascii.eqb c ":"%char.

(** One round of the [for _, part := range strings.Split(input, ",")]
    loop. *)
Definition parse_part (headers : gmap string string) (part : string)
  : gmap string string :=
  let part := Str.trim Str.Go part in
  if Str.is_empty part then headers
  else match Str.index_where is_separator part with
       | None => headers
       | Some idx =>
           let key := Str.trim Str.Go (Str.take idx part) in
           let value := Str.trim Str.Go (Str.drop (idx + 1) part) in
           if negb (Str.is_empty key) && negb (Str.is_empty value)
           then <[key:=value]> headers
           else headers
       end.

Definition ParseHeaders (input : string) : gmap string string :=
  if Str.is_empty input then ∅
  else match unmarshal_string_map input with
       | Some obj => obj
       | None => foldl parse_part ∅ (Str.split "," input)
       end.

End GoRpc.

(* ===================================================================== *)
(** * Go: the client builder  (internal/rpc/builder.go)                   *)
(* ===================================================================== *)

(** [type Network string] *)
Abbreviation Network := string (only parsing).

(** The fields of [NetworkConfig] the builder and its tests use. *)
Record NetworkConfig := {
  Name : string;
  cfg_HorizonURL : string;
  NetworkPassphrase : string;
  SorobanRPCURL : string;
}.

Module Builder.

Section Builder.
(** Declared elsewhere in package [rpc] and in the packages it
    imports; the builder only passes them around. *)
Variable Error : Type.
Variable error_text : Error → string.              (* [err.Error()] *)
Variable WrapValidationError : string → Error.
Variable HTTPClient : Type.                        (* [*http.Client] *)
Variable createHTTPClient : string → gmap string string → Z → HTTPClient.
Variable isValidURL : string → option Error.       (* [None] is [nil] *)
Variable ValidateNetworkConfig : NetworkConfig → option Error.
Variables Mainnet Testnet Futurenet : Network.
Variables TestnetHorizonURL FuturenetHorizonURL MainnetHorizonURL : string.
Variables TestnetSorobanURL FuturenetSorobanURL MainnetSorobanURL : string.
Variables TestnetConfig FuturenetConfig MainnetConfig : NetworkConfig.
(** [os.Getenv("ERST_RPC_TOKEN")] *)
Variable ERST_RPC_TOKEN : string.

Record clientBuilder := {
  network : Network;
  token : string;
  horizonURL : string;
  sorobanURL : string;
  altURLs : list string;
  cacheEnabled : bool;
  config : option NetworkConfig;
  httpClient : option HTTPClient;
  requestTimeout : Z;
  headers : gmap string string;
}.

(** [horizonclient.Client] *)
Record HorizonClient := {
  hc_HorizonURL : string;
  hc_HTTP : HTTPClient;
}.

Record Client := {
  HorizonURL : string;
  Horizon : HorizonClient;
  cl_Network : Network;
  SorobanURL : string;
  AltURLs : list string;
  cl_httpClient : HTTPClient;
  cl_token : string;
  Config : NetworkConfig;
  CacheEnabled : bool;
  Headers : gmap string string;
  failures : gmap string Z;
  lastFailure : gmap string Z;
}.

(** A function from a builder pointer to [error]: the builder after the
    call and the returned error. *)
Definition ClientOption : Type := clientBuilder → clientBuilder * option Error.

(** [15 * time.Second], in nanoseconds. *)
Definition defaultHTTPTimeout : Z := 15 * 1000000000.

Definition newBuilder : clientBuilder := {|
  network := Mainnet;
  token := "";
  horizonURL := "";
  sorobanURL := "";
  altURLs := [];
  cacheEnabled := true;
  config := None;
  httpClient := None;
  requestTimeout := defaultHTTPTimeout;
  headers := ∅;
|}.

Definition set_network (v : Network) (b : clientBuilder) : clientBuilder :=
  {| network := v; token := token b; horizonURL := horizonURL b;
     sorobanURL := sorobanURL b; altURLs := altURLs b;
     cacheEnabled := cacheEnabled b; config := config b;
     httpClient := httpClient b; requestTimeout := requestTimeout b;
     headers := headers b |}.
Definition set_token (v : string) (b : clientBuilder) : clientBuilder :=
  {| network := network b; token := v; horizonURL := horizonURL b;
     sorobanURL := sorobanURL b; altURLs := altURLs b;
     cacheEnabled := cacheEnabled b; config := config b;
     httpClient := httpClient b; requestTimeout := requestTimeout b;
     headers := headers b |}.
Definition set_horizonURL (v : string) (b : clientBuilder) : clientBuilder :=
  {| network := network b; token := token b; horizonURL := v;
     sorobanURL := sorobanURL b; altURLs := altURLs b;
     cacheEnabled := cacheEnabled b; config := config b;
     httpClient := httpClient b; requestTimeout := requestTimeout b;
     headers := headers b |}.
Definition set_sorobanURL (v : string) (b : clientBuilder) : clientBuilder :=
  {| network := network b; token := token b; horizonURL := horizonURL b;
     sorobanURL := v; altURLs := altURLs b;
     cacheEnabled := cacheEnabled b; config := config b;
     httpClient := httpClient b; requestTimeout := requestTimeout b;
     headers := headers b |}.
Definition set_altURLs (v : list string) (b : clientBuilder) : clientBuilder :=
  {| network := network b; token := token b; horizonURL := horizonURL b;
     sorobanURL := sorobanURL b; altURLs := v;
     cacheEnabled := cacheEnabled b; config := config b;
     httpClient := httpClient b; requestTimeout := requestTimeout b;
     headers := headers b |}.
Definition set_cacheEnabled (v : bool) (b : clientBuilder) : clientBuilder :=
  {| network := network b; token := token b; horizonURL := horizonURL b;
     sorobanURL := sorobanURL b; altURLs := altURLs b;
     cacheEnabled := v; config := config b;
     httpClient := httpClient b; requestTimeout := requestTimeout b;
     headers := headers b |}.
Definition set_config (v : option NetworkConfig) (b : clientBuilder) : clientBuilder :=
  {| network := network b; token := token b; horizonURL := horizonURL b;
     sorobanURL := sorobanURL b; altURLs := altURLs b;
     cacheEnabled := cacheEnabled b; config := v;
     httpClient := httpClient b; requestTimeout := requestTimeout b;
     headers := headers b |}.
Definition set_httpClient (v : option HTTPClient) (b : clientBuilder) : clientBuilder :=
  {| network := network b; token := token b; horizonURL := horizonURL b;
     sorobanURL := sorobanURL b; altURLs := altURLs b;
     cacheEnabled := cacheEnabled b; config := config b;
     httpClient := v; requestTimeout := requestTimeout b;
     headers := headers b |}.
Definition set_requestTimeout (v : Z) (b : clientBuilder) : clientBuilder :=
  {| network := network b; token := token b; horizonURL := horizonURL b;
     sorobanURL := sorobanURL b; altURLs := altURLs b;
     cacheEnabled := cacheEnabled b; config := config b;
     httpClient := httpClient b; requestTimeout := v;
     headers := headers b |}.
Definition set_headers (v : gmap string string) (b : clientBuilder) : clientBuilder :=
  {| network := network b; token := token b; horizonURL := horizonURL b;
     sorobanURL := sorobanURL b; altURLs := altURLs b;
     cacheEnabled := cacheEnabled b; config := config b;
     httpClient := httpClient b; requestTimeout := requestTimeout b;
     headers := v |}.

Definition WithNetwork (net : Network) : ClientOption := λ b,
  let net := if Str.is_empty net then Mainnet else net in
  (set_network net b, None).

Definition WithToken (token : string) : ClientOption := λ b,
  (set_token token b, None).

Definition WithHeaders (headers : gmap string string) : ClientOption := λ b,
  (set_headers headers b, None).

Definition WithHorizonURL (url : string) : ClientOption := λ b,
  match (if Str.is_empty url then None else isValidURL url) with
  | Some err =>
      (b, Some (WrapValidationError ("invalid HorizonURL: " +:+ error_text err)))
  | None =>
      (set_altURLs [url] (set_horizonURL url b), None)
  end.

(** The [for _, url := range urls] loop: the first validation error. *)
Fixpoint first_invalid (urls : list string) : option Error :=
  match urls with
  | [] => None
  | url :: rest =>
      match isValidURL url with
      | Some err => Some err
      | None => first_invalid rest
      end
  end.

Definition WithAltURLs (urls : list string) : ClientOption := λ b,
  match first_invalid urls with
  | Some err =>
      (b, Some (WrapValidationError ("invalid URL in altURLs: " +:+ error_text err)))
  | None =>
      match urls with
      | first :: _ => (set_horizonURL first (set_altURLs urls b), None)
      | [] => (b, None)
      end
  end.

Definition WithSorobanURL (url : string) : ClientOption := λ b,
  match (if Str.is_empty url then None else isValidURL url) with
  | Some err =>
      (b, Some (WrapValidationError ("invalid SorobanURL: " +:+ error_text err)))
  | None => (set_sorobanURL url b, None)
  end.

Definition WithNetworkConfig (cfg : NetworkConfig) : ClientOption := λ b,
  match ValidateNetworkConfig cfg with
  | Some err =>
      (b, Some (WrapValidationError ("invalid network config: " +:+ error_text err)))
  | None =>
      (set_sorobanURL (SorobanRPCURL cfg)
         (set_horizonURL (cfg_HorizonURL cfg)
            (set_network (Name cfg)
               (set_config (Some cfg) b))),
       None)
  end.

Definition WithCacheEnabled (enabled : bool) : ClientOption := λ b,
  (set_cacheEnabled enabled b, None).

Definition WithRequestTimeout (d : Z) : ClientOption := λ b,
  (set_requestTimeout d b, None).

Definition WithHTTPClient (client : option HTTPClient) : ClientOption := λ b,
  (set_httpClient client b, None).

Definition getDefaultHorizonURL (net : Network) : string :=
  if String.eqb net Testnet then TestnetHorizonURL
  else if String.eqb net Futurenet then FuturenetHorizonURL
  else MainnetHorizonURL.

Definition getDefaultSorobanURL (net : Network) : string :=
  if String.eqb net Testnet then TestnetSorobanURL
  else if String.eqb net Futurenet then FuturenetSorobanURL
  else MainnetSorobanURL.

Definition getConfig (net : Network) : NetworkConfig :=
  if String.eqb net Testnet then TestnetConfig
  else if String.eqb net Futurenet then FuturenetConfig
  else MainnetConfig.

Definition validate (b : clientBuilder) : clientBuilder * option Error :=
  let b := if Str.is_empty (network b) then set_network Mainnet b else b in
  let b := if Str.is_empty (horizonURL b) && Str.is_empty (sorobanURL b)
           then set_horizonURL (getDefaultHorizonURL (network b)) b else b in
  (b, None).

Definition build (b : clientBuilder) : clientBuilder * (option Client * option Error) :=
  let b := if Str.is_empty (sorobanURL b)
           then set_sorobanURL (getDefaultSorobanURL (network b)) b else b in
  let cfg := default (getConfig (network b)) (config b) in
  let b := set_config (Some cfg) b in
  let http := default (createHTTPClient (token b) (headers b) (requestTimeout b))
                (httpClient b) in
  let b := set_httpClient (Some http) b in
  let b := if (length (altURLs b) =? 0)%nat && negb (Str.is_empty (horizonURL b))
           then set_altURLs [horizonURL b] b else b in
  let b := if Str.is_empty (horizonURL b)
           then set_horizonURL (cfg_HorizonURL cfg) b else b in
  let b := if (length (altURLs b) =? 0)%nat
           then set_altURLs [horizonURL b] b else b in
  (b, (Some {|
     HorizonURL := horizonURL b;
     Horizon := {| hc_HorizonURL := horizonURL b; hc_HTTP := http |};
     cl_Network := network b;
     SorobanURL := sorobanURL b;
     AltURLs := altURLs b;
     cl_httpClient := http;
     cl_token := token b;
     Config := cfg;
     CacheEnabled := cacheEnabled b;
     Headers := headers b;
     failures := ∅;
     lastFailure := ∅;
   |}, None)).

(** The [for _, opt := range opts] loop of [NewClient]: the builder when
    the loop is left and the error that ended it, if any. *)
Fixpoint applyOptions (opts : list ClientOption) (b : clientBuilder)
  : clientBuilder * option Error :=
  match opts with
  | [] => (b, None)
  | opt :: rest =>
      match opt b with
      | (b', Some err) => (b', Some err)
      | (b', None) => applyOptions rest b'
      end
  end.

Definition NewClient (opts : list ClientOption) : option Client * option Error :=
  let builder := newBuilder in
  let builder := if Str.is_empty (token builder)
                 then set_token ERST_RPC_TOKEN builder else builder in
  match applyOptions opts builder with
  | (_, Some err) => (None, Some err)
  | (builder, None) =>
      match validate builder with
      | (_, Some err) => (None, Some err)
      | (builder, None) => snd (build builder)
      end
  end.

End Builder.

End Builder.

(* ===================================================================== *)
(** * The endpoint failure tracker                                        *)
(* ===================================================================== *)

(** [build] hands the client two empty maps, [failures] and
    [lastFailure]; the functions that use them are not in the files at
    hand.  Times and durations are integers in one unit (milliseconds). *)
Module Tracker.

(** The two maps of a [Client]. *)
Record state := {
  failures : gmap string Z;
  lastFailure : gmap string Z;
}.

(** What [build] puts into a new client. *)
Definition init : state := {| failures := ∅; lastFailure := ∅ |}.

(** An entry is lazily created at zero. *)
Definition consecutiveFailures (url : string) (t : state) : Z :=
  default 0%Z (failures t !! url).

Definition lastFailureAt (url : string) (t : state) : option Z :=
  lastFailure t !! url.

(** Modelled from the spec: [recordFailure], which is missing from the
    sources.  "consecutiveFailures[url] += 1; lastFailureAt[url] = now". *)
Definition recordFailure (url : string) (now : Z) (t : state) : state :=
  {| failures := <[url := (consecutiveFailures url t + 1)%Z]> (failures t);
     lastFailure := <[url := now]> (lastFailure t) |}.

(** Modelled from the spec: [recordSuccess], which is missing from the
    sources.  "consecutiveFailures[url] = 0; lastFailureAt[url]
    cleared"; the entry is reset, not deleted. *)
Definition recordSuccess (url : string) (t : state) : state :=
  {| failures := <[url := 0%Z]> (failures t);
     lastFailure := delete url (lastFailure t) |}.

Inductive breaker := CLOSED | OPEN | HALF_OPEN.

Section Policy.
Variables circuitBreakerThreshold circuitBreakerTimeout : Z.

(** Modelled from the spec: the per-endpoint state machine, which is
    missing from the sources.  CLOSED is the default; an endpoint is
    OPEN after [circuitBreakerThreshold] consecutive recorded failures,
    and HALF_OPEN once [circuitBreakerTimeout] has elapsed since
    [lastFailureAt]. *)
Definition breakerState (url : string) (now : Z) (t : state) : breaker :=
  match lastFailureAt url t with
  | None => CLOSED
  | Some at_ =>
      if (consecutiveFailures url t <? circuitBreakerThreshold)%Z then CLOSED
      else if (now - at_ <? circuitBreakerTimeout)%Z then OPEN
      else HALF_OPEN
  end.

(** Modelled from the spec: [isEligible], which is missing from the
    sources.  CLOSED and HALF_OPEN endpoints are eligible, OPEN ones
    are not. *)
Definition isEligible (url : string) (now : Z) (t : state) : bool :=
  match breakerState url now t with
  | OPEN => false
  | CLOSED | HALF_OPEN => true
  end.
End Policy.

(** The calls the request dispatcher makes on a tracker. *)
Inductive op :=
| RecordFailure (url : string) (now : Z)
| RecordSuccess (url : string).

Definition step (t : state) (o : op) : state :=
  match o with
  | RecordFailure url now => recordFailure url now t
  | RecordSuccess url => recordSuccess url t
  end.

Definition run (ops : list op) (t : state) : state := foldl step t ops.

Definition is_failure_of (url : string) (o : op) : bool :=
  match o with
  | RecordFailure u _ => bool_decide (u = url)
  | RecordSuccess _ => false
  end.

Definition is_success_of (url : string) (o : op) : bool :=
  match o with
  | RecordSuccess u => bool_decide (u = url)
  | RecordFailure _ _ => false
  end.

Definition touches (url : string) (o : op) : bool :=
  is_failure_of url o || is_success_of url o.

End Tracker.

(* ===================================================================== *)
(** * TypeScript: [RPCConfigParser]  (rpc-config.ts)                      *)
(* ===================================================================== *)

Module JsRt.

(** [headers[key] = value] on a plain object, for a string [value]: the
    inherited [__proto__] accessor swallows the assignment. *)
Definition set_property (key value : string) (o : gmap string string)
  : gmap string string :=
  if decide (key = "__proto__") then o else <[key:=value]> o.

(** The own properties of a decoded JSON document that is an object or
    an array; of duplicate member names the last one stays. *)
Definition properties (v : Json.value) : gmap string Json.value :=
  match v with
  | Json.JObject ms => foldl (λ o kv, <[kv.1:=kv.2]> o) ∅ ms
  | Json.JArray l => list_to_map (imap (λ i x, (pretty i, x)) l)
  | _ => ∅
  end.

(** [obj && typeof obj === 'object'] *)
Definition is_object (v : Json.value) : bool :=
  match v with
  | Json.JObject _ | Json.JArray _ => true
  | _ => false
  end.

Fixpoint all_digits (s : string) : bool :=
  match s with
  | "" => true
  | String c r => Json.is_digit c && all_digits r
  end.

(** A lexeme that is an integer of at most fifteen digits: its value is
    an exact double and prints as its digits. *)
Definition is_small_int (lexeme : string) : bool :=
  let digits :=
    match lexeme with
    | String c r => if Ascii.eqb c "-"%char then r else lexeme
    | "" => lexeme
    end in
  negb (Str.is_empty digits) && all_digits digits
  && (String.length digits <=? 15)%nat.

Section ToString.
(** [String(x)] for the number a lexeme denotes, used outside the
    small integers (fractions, exponents, long digit strings). *)
Variable number_to_string : string → string.

Definition number_string (lexeme : string) : string :=
  if is_small_int lexeme then
    if String.eqb lexeme "-0" then "0" else lexeme
  else number_to_string lexeme.

(** [String(value)] *)
Fixpoint to_string (v : Json.value) : string :=
  match v with
  | Json.JNull => "null"
  | Json.JBool true => "true"
  | Json.JBool false => "false"
  | Json.JNumber n => number_string n
  | Json.JString s => s
  | Json.JObject _ => "[object Object]"
  | Json.JArray l =>
      let elem (x : Json.value) :=
        match x with Json.JNull => "" | _ => to_string x end in
      (fix join (l : list Json.value) : string :=
         match l with
         | [] => ""
         | [x] => elem x
         | x :: r => elem x +:+ "," +:+ join r
         end) l
  end.
End ToString.

End JsRt.

(** What a call leaves behind besides its value: a thrown [Error] instead
    of a value, and the lines written with [console.warn]. *)
Inductive result (A : Type) :=
| Return (a : A)
| Throw (message : string).
Arguments Return {A} a.
Arguments Throw {A} message.

Definition result_map {A B : Type} (f : A → B) (r : result A) : result B :=
  match r with
  | Return a => Return (f a)
  | Throw message => Throw message
  end.

Record RPCConfig := {
  urls : list string;
  timeout : Z;
  retries : Z;
  retryDelay : Z;
  circuitBreakerThreshold : Z;
  circuitBreakerTimeout : Z;
  maxRedirects : Z;
  headers : option (gmap string string);
}.

(** The argument of [loadConfig].  An absent property is [None]; numbers
    are integers (milliseconds and counts). *)
Record Options := {
  opt_rpc : option (string + list string);
  opt_timeout : option Z;
  opt_retries : option Z;
  opt_headers : option (gmap string string + string);
}.

Module RPCConfigParser.

Section Parser.
Variable number_to_string : string → string.
(** [new URL(s).protocol]; [None] when the constructor throws. *)
Variable url_protocol : string → option string.

(** The body of the [forEach] callback over [input.split(',')]. *)
Definition parse_pair (headers : gmap string string) (pair : string)
  : gmap string string :=
  let sepIdx :=
    match Str.index_of "="%char pair with
    | Some i => Some i
    | None => Str.index_of ":"%char pair
    end in
  match sepIdx with
  | None => headers
  | Some sepIdx =>
      let key := Str.trim Str.JS (Str.take sepIdx pair) in
      let value := Str.trim Str.JS (Str.drop (sepIdx + 1) pair) in
      if negb (Str.is_empty key) && negb (Str.is_empty value)
      then JsRt.set_property key value headers
      else headers
  end.

Definition parseHeaders (input : string) : gmap string string :=
  match Json.parse input with
  | Some obj =>
      if JsRt.is_object obj then
        map_fold
          (λ key value headers,
             JsRt.set_property key (JsRt.to_string number_to_string value) headers)
          ∅ (JsRt.properties obj)
      else foldl parse_pair ∅ (Str.split "," input)
  | None => foldl parse_pair ∅ (Str.split "," input)
  end.

Definition warning (urlString : string) : string :=
  "[WARN]  Invalid RPC URL skipped: " +:+ urlString.

Definition isValidUrl (urlString : string) : bool * list string :=
  match url_protocol urlString with
  | Some protocol =>
      (String.eqb protocol "http:" || String.eqb protocol "https:", [])
  | None => (false, [warning urlString])
  end.

(** The check without its warning, and the candidates [new URL] rejects. *)
Definition valid_url (urlString : string) : bool := fst (isValidUrl urlString).

Definition unparseable (urlString : string) : bool :=
  match url_protocol urlString with None => true | Some _ => false end.

(** [urls.filter(url => this.isValidUrl(url))], with the warnings in
    the order they are written. *)
Fixpoint filter_valid (urls : list string) : list string * list string :=
  match urls with
  | [] => ([], [])
  | url :: rest =>
      let '(ok, w) := isValidUrl url in
      let '(valid, ws) := filter_valid rest in
      (if ok then url :: valid else valid, w ++ ws)
  end.

(** The candidates pushed into [urls] before validation. *)
Definition candidates (input : string + list string) : list string :=
  match input with
  | inr list => list
  | inl str => Str.trim Str.JS <$> Str.split "," str
  end.

Definition parseUrls (input : string + list string)
  : result (list string) * list string :=
  let urls := candidates input in
  let '(validUrls, warnings) := filter_valid urls in
  match validUrls with
  | [] => (Throw "No valid RPC URLs provided", warnings)
  | _ => (Return validUrls, warnings)
  end.

(** JavaScript truthiness of the values [loadConfig] tests. *)
Definition truthy_string (s : string) : bool := negb (Str.is_empty s).

Definition truthy_rpc (v : option (string + list string)) : bool :=
  match v with
  | Some (inl s) => truthy_string s
  | Some (inr _) => true
  | None => false
  end.

Definition truthy_env (v : option string) : bool :=
  match v with Some s => truthy_string s | None => false end.

(** [v || d] for an optional number [v]: zero and [undefined] are
    falsy. *)
Definition number_or (v : option Z) (d : Z) : Z :=
  match v with
  | Some n => if (n =? 0)%Z then d else n
  | None => d
  end.

(** [options.rpc || process.env.STELLAR_RPC_URLS] *)
Definition urlInput (options : Options) (env : gmap string string)
  : option (string + list string) :=
  if truthy_rpc (opt_rpc options) then opt_rpc options
  else inl <$> env !! "STELLAR_RPC_URLS".

(** The [headers] variable of [loadConfig] before [cfg] is built. *)
Definition resolveHeaders (options : Options) (env : gmap string string)
  : option (gmap string string) :=
  match opt_headers options with
  | Some (inl record) => Some record
  | Some (inr (String _ _ as str)) => Some (parseHeaders str)
  | _ =>
      if truthy_env (env !! "STELLAR_RPC_HEADERS")
      then parseHeaders <$> env !! "STELLAR_RPC_HEADERS"
      else None
  end.

Definition no_urls_configured : string :=
  "No RPC URLs configured. Use --rpc flag or STELLAR_RPC_URLS env variable".

Definition loadConfig (options : Options) (env : gmap string string)
  : result RPCConfig * list string :=
  let urlInput := urlInput options env in
  if negb (truthy_rpc urlInput) then (Throw no_urls_configured, [])
  else
    match urlInput with
    | None => (Throw no_urls_configured, [])
    | Some input =>
        match parseUrls input with
        | (Throw e, warnings) => (Throw e, warnings)
        | (Return urls, warnings) =>
            let headers := resolveHeaders options env in
            let cfg := {|
              urls := urls;
              timeout := number_or (opt_timeout options) 30000;
              retries := number_or (opt_retries options) 3;
              retryDelay := 1000;
              circuitBreakerThreshold := 5;
              circuitBreakerTimeout := 60000;
              maxRedirects := 5;
              headers :=
                match headers with
                | Some h => if (0 <? size h)%nat then Some h else None
                | None => None
                end;
            |} in
            (Return cfg, warnings)
        end
    end.

End Parser.

End RPCConfigParser.

(* ===================================================================== *)
(** * The specification's wording, where it departs from the code         *)
(* ===================================================================== *)

Module Stated.

(** "accepts a comma-delimited string or an explicit list, trims each
    candidate": the candidates of [parseUrls] with every one trimmed. *)
Definition candidates (input : string + list string) : list string :=
  Str.trim Str.JS <$>
    match input with
    | inl str => Str.split "," str
    | inr list => list
    end.

(** "returns exactly the candidates that pass the validity check in their
    original order, drops invalid entries non-fatally with a warning, and
    throws if and only if zero valid URLs remain". *)
Definition parseUrls_claim (url_protocol : string → option string) : Prop :=
  ∀ input : string + list string,
    let valid := List.filter (RPCConfigParser.valid_url url_protocol)
                   (candidates input) in
    let r := RPCConfigParser.parseUrls url_protocol input in
    fst r = (if decide (valid = []) then Throw "No valid RPC URLs provided"
             else Return valid)
    ∧ length (snd r) = (length (candidates input) - length valid)%nat.

(** "from the explicit rpc option when present and otherwise from the
    STELLAR_RPC_URLS environment variable". *)
Definition endpoint_source (options : Options) (env : gmap string string)
  : option (string + list string) :=
  match opt_rpc options with
  | Some input => Some input
  | None => inl <$> env !! "STELLAR_RPC_URLS"
  end.

Definition loadConfig_claim (number_to_string : string → string)
    (url_protocol : string → option string) : Prop :=
  ∀ (options : Options) (env : gmap string string),
    let r := fst (RPCConfigParser.loadConfig number_to_string url_protocol options env) in
    match endpoint_source options env with
    | Some input =>
        result_map urls r = fst (RPCConfigParser.parseUrls url_protocol input)
    | None => ∃ e, r = Throw e
    end.

End Stated.

(* ===================================================================== *)
(** * A URL parser for running the model                                  *)
(* ===================================================================== *)

(** [new URL(s)] is the platform's WHATWG URL parser and a parameter of
    [RPCConfigParser].  To run the model on concrete inputs this module
    follows that parser through the scheme and the authority: leading and
    trailing C0 control and space bytes are stripped, tabs and newlines
    removed, the scheme is read up to the first colon and lowercased, and
    a special scheme other than [file] needs a non-empty host without
    forbidden bytes.  Host syntax beyond that (IDNA, IP literals, ports)
    is not checked. *)
Module Whatwg.

Definition is_c0_or_space (c : ascii) : bool := (Str.byte c <=? 32)%N.

Fixpoint strip_left (s : string) : string :=
  match s with
  | String c r => if is_c0_or_space c then strip_left r else s
  | "" => ""
  end.

Definition strip (s : string) : string :=
  String.rev (strip_left (String.rev (strip_left s))).

Definition is_tab_or_newline (c : ascii) : bool :=
  let n := Str.byte c in ((n =? 9) || (n =? 10) || (n =? 13))%N.

Fixpoint remove_tab_newline (s : string) : string :=
  match s with
  | String c r =>
      if is_tab_or_newline c then remove_tab_newline r
      else String c (remove_tab_newline r)
  | "" => ""
  end.

Definition is_alpha (c : ascii) : bool :=
  let n := Str.byte c in
  ((65 <=? n) && (n <=? 90) || (97 <=? n) && (n <=? 122))%N.

Definition lower (c : ascii) : ascii :=
  let n := Str.byte c in
  if ((65 <=? n) && (n <=? 90))%N then ascii_of_N (n + 32) else c.

Definition is_scheme_char (c : ascii) : bool :=
  is_alpha c || Json.is_digit c
  || Ascii.eqb c "+"%char || Ascii.eqb c "-"%char || Ascii.eqb c "."%char.

(** The lowercased scheme and what follows its colon. *)
Fixpoint scheme_rest (s : string) : option (string * string) :=
  match s with
  | String c r =>
      if Ascii.eqb c ":"%char then Some ("", r)
      else if is_scheme_char c then
        '(sch, rest) ← scheme_rest r; Some (String (lower c) sch, rest)
      else None
  | "" => None
  end.

Definition scheme (s : string) : option (string * string) :=
  match s with
  | String c _ => if is_alpha c then scheme_rest s else None
  | "" => None
  end.

Definition is_slash (c : ascii) : bool :=
  Ascii.eqb c "/"%char || Ascii.eqb c "\"%char.

Fixpoint skip_slashes (s : string) : string :=
  match s with
  | String c r => if is_slash c then skip_slashes r else s
  | "" => ""
  end.

Definition ends_authority (c : ascii) : bool :=
  is_slash c || Ascii.eqb c "?"%char || Ascii.eqb c "#"%char.

Definition authority (s : string) : string :=
  match Str.index_where ends_authority s with
  | Some i => Str.take i s
  | None => s
  end.

(** Index of the last byte equal to [c]. *)
Definition last_index_of (c : ascii) (s : string) : option nat :=
  (λ i, String.length s - 1 - i) <$> Str.index_of c (String.rev s).

Definition host_port (auth : string) : string :=
  match last_index_of "@"%char auth with
  | Some i => Str.drop (i + 1) auth
  | None => auth
  end.

Definition host (auth : string) : string :=
  let hp := host_port auth in
  match hp with
  | String "[" _ => hp
  | _ => match last_index_of ":"%char hp with
         | Some i => Str.take i hp
         | None => hp
         end
  end.

Definition forbidden_host_byte (c : ascii) : bool :=
  let n := Str.byte c in
  ((n <=? 32) || (n =? 127))%N
  || Ascii.eqb c "<"%char || Ascii.eqb c ">"%char
  || Ascii.eqb c "^"%char || Ascii.eqb c "|"%char.

Definition is_special (sch : string) : bool :=
  bool_decide (sch ∈ ["ftp"; "http"; "https"; "ws"; "wss"]).

Definition protocol (input : string) : option string :=
  '(sch, rest) ← scheme (remove_tab_newline (strip input));
  if is_special sch then
    let h := host (authority (skip_slashes rest)) in
    if Str.is_empty h || bool_decide (is_Some (Str.index_where forbidden_host_byte h))
    then None
    else Some (sch +:+ ":")
  else Some (sch +:+ ":").

End Whatwg.

(* ===================================================================== *)
(** * An instance of the builder's parameters                             *)
(* ===================================================================== *)

(** Values for the declarations the builder takes as parameters, to run
    it on concrete option lists.  The network names and URLs stand in for
    the package constants; an error is its message; the HTTP client is the
    triple it was created from. *)
Module Sample.

Definition Error : Type := string.
Definition error_text (e : Error) : string := e.
Definition WrapValidationError (msg : string) : Error :=
  "validation error: " +:+ msg.

Definition HTTPClient : Type := string * gmap string string * Z.
Definition createHTTPClient (token : string) (headers : gmap string string)
  (timeout : Z) : HTTPClient := (token, headers, timeout).

(** Modelled from the spec: [isValidURL], which is missing from the
    sources.  "valid iff s parses as an absolute URL with scheme exactly
    http or https; any other scheme or parse failure is invalid". *)
Definition isValidURL (s : string) : option Error :=
  match Whatwg.protocol s with
  | Some "http:" | Some "https:" => None
  | Some _ => Some ("scheme must be http or https: " +:+ s)
  | None => Some ("not an absolute URL: " +:+ s)
  end.

(** Modelled from the spec: [ValidateNetworkConfig], which is missing
    from the sources.  "fails if name is empty, primary URL fails the
    URL check, or passphrase is empty". *)
Definition ValidateNetworkConfig (cfg : NetworkConfig) : option Error :=
  if Str.is_empty (Name cfg) then Some "network name is required"
  else match isValidURL (cfg_HorizonURL cfg) with
       | Some e => Some e
       | None =>
           if Str.is_empty (NetworkPassphrase cfg)
           then Some "network passphrase is required" else None
       end.

Definition Mainnet : Network := "mainnet".
Definition Testnet : Network := "testnet".
Definition Futurenet : Network := "futurenet".

Definition MainnetHorizonURL := "https://horizon.stellar.org/".
Definition TestnetHorizonURL := "https://horizon-testnet.stellar.org/".
Definition FuturenetHorizonURL := "https://horizon-futurenet.stellar.org/".
Definition MainnetSorobanURL := "https://mainnet.sorobanrpc.com".
Definition TestnetSorobanURL := "https://soroban-testnet.stellar.org".
Definition FuturenetSorobanURL := "https://rpc-futurenet.stellar.org".

Definition MainnetConfig : NetworkConfig := {|
  Name := "mainnet"; cfg_HorizonURL := MainnetHorizonURL;
  NetworkPassphrase := "Public Global Stellar Network ; September 2015";
  SorobanRPCURL := MainnetSorobanURL |}.
Definition TestnetConfig : NetworkConfig := {|
  Name := "testnet"; cfg_HorizonURL := TestnetHorizonURL;
  NetworkPassphrase := "Test SDF Network ; September 2015";
  SorobanRPCURL := TestnetSorobanURL |}.
Definition FuturenetConfig : NetworkConfig := {|
  Name := "futurenet"; cfg_HorizonURL := FuturenetHorizonURL;
  NetworkPassphrase := "Test SDF Future Network ; October 2022";
  SorobanRPCURL := FuturenetSorobanURL |}.

Abbreviation ClientOption := (Builder.ClientOption Error HTTPClient).
Abbreviation Client := (Builder.Client HTTPClient).

Definition WithToken : string → ClientOption := Builder.WithToken Error HTTPClient.
Definition WithCacheEnabled : bool → ClientOption :=
  Builder.WithCacheEnabled Error HTTPClient.
Definition WithHorizonURL : string → ClientOption :=
  Builder.WithHorizonURL Error error_text WrapValidationError HTTPClient isValidURL.
Definition WithAltURLs : list string → ClientOption :=
  Builder.WithAltURLs Error error_text WrapValidationError HTTPClient isValidURL.
Definition WithNetworkConfig : NetworkConfig → ClientOption :=
  Builder.WithNetworkConfig Error error_text WrapValidationError HTTPClient
    ValidateNetworkConfig.

(** No token in the environment. *)
Definition NewClient : list ClientOption → option Client * option Error :=
  Builder.NewClient Error HTTPClient createHTTPClient
    Mainnet Testnet Futurenet
    TestnetHorizonURL FuturenetHorizonURL MainnetHorizonURL
    TestnetSorobanURL FuturenetSorobanURL MainnetSorobanURL
    TestnetConfig FuturenetConfig MainnetConfig "".

(** The TypeScript parser with the URL parser above; the inputs it is
    run on hold no number outside the small integers. *)
Definition parseHeaders : string → gmap string string :=
  RPCConfigParser.parseHeaders (λ lexeme, lexeme).
Definition parseUrls := RPCConfigParser.parseUrls Whatwg.protocol.
Definition loadConfig := RPCConfigParser.loadConfig (λ lexeme, lexeme) Whatwg.protocol.

End Sample.

(* ===================================================================== *)
(** * Running the model on the repository's test inputs                   *)
(* ===================================================================== *)

Example json_parse_object :
  Json.parse (Json.text "{'A':'1','B':2}")
  = Some (Json.JObject [("A", Json.JString "1"); ("B", Json.JNumber "2")]).
Proof. vm_compute. reflexivity. Qed.

Example split_keeps_empty_pieces : Str.split "," "a, b,,c" = ["a"; " b"; ""; "c"].
Proof. reflexivity. Qed.

Example go_trim_space : Str.trim Str.Go "  a b	 " = "a b".
Proof. reflexivity. Qed.

(** TestParseHeadersHelper, second half. *)
Example go_ParseHeaders_pairs :
  GoRpc.ParseHeaders "X=1,Y:2,Z=three" = {[ "X" := "1"; "Y" := "2"; "Z" := "three" ]}.
Proof. vm_compute. reflexivity. Qed.

(** 'should ignore malformed segments' *)
Example ts_parseHeaders_malformed :
  Sample.parseHeaders "X=1,notvalid,Y=2" = {[ "X" := "1"; "Y" := "2" ]}.
Proof. vm_compute. reflexivity. Qed.

(** 'should filter out invalid URLs' *)
Example ts_parseUrls_filters :
  fst (Sample.parseUrls (inl "https://valid.com,invalid-url,ftp://wrong.com"))
  = Return ["https://valid.com"].
Proof. vm_compute. reflexivity. Qed.

(** TestBuilderWithAltURLs *)
Example go_NewClient_alt_urls :
  Builder.AltURLs _ <$> fst (Sample.NewClient [Sample.WithAltURLs ["https://url1.org"; "https://url2.org"]])
  = Some ["https://url1.org"; "https://url2.org"].
Proof. vm_compute. reflexivity. Qed.

(** TestBuilderWithInvalidURL *)
Example go_NewClient_invalid_url :
  is_Some (snd (Sample.NewClient [Sample.WithHorizonURL "not a valid url"])).
Proof. vm_compute. eauto. Qed.

(* ===================================================================== *)
(** * The client builder: properties                                      *)
(* ===================================================================== *)

Section BuilderProps.
Variable Error : Type.
Variable error_text : Error → string.
Variable WrapValidationError : string → Error.
Variable HTTPClient : Type.
Variable createHTTPClient : string → gmap string string → Z → HTTPClient.
Variable isValidURL : string → option Error.
Variable ValidateNetworkConfig : NetworkConfig → option Error.
Variables Mainnet Testnet Futurenet : Network.
Variables TestnetHorizonURL FuturenetHorizonURL MainnetHorizonURL : string.
Variables TestnetSorobanURL FuturenetSorobanURL MainnetSorobanURL : string.
Variables TestnetConfig FuturenetConfig MainnetConfig : NetworkConfig.
Variable ERST_RPC_TOKEN : string.

Local Abbreviation clientBuilder := (Builder.clientBuilder HTTPClient).
Local Abbreviation ClientOption := (Builder.ClientOption Error HTTPClient).
Local Abbreviation applyOptions := (Builder.applyOptions Error HTTPClient).
Local Abbreviation validate :=
  (Builder.validate Error HTTPClient Mainnet Testnet Futurenet
     TestnetHorizonURL FuturenetHorizonURL MainnetHorizonURL).
Local Abbreviation build :=
  (Builder.build Error HTTPClient createHTTPClient Testnet Futurenet
     TestnetSorobanURL FuturenetSorobanURL MainnetSorobanURL
     TestnetConfig FuturenetConfig MainnetConfig).
Local Abbreviation NewClient :=
  (Builder.NewClient Error HTTPClient createHTTPClient
     Mainnet Testnet Futurenet
     TestnetHorizonURL FuturenetHorizonURL MainnetHorizonURL
     TestnetSorobanURL FuturenetSorobanURL MainnetSorobanURL
     TestnetConfig FuturenetConfig MainnetConfig ERST_RPC_TOKEN).
Local Abbreviation getConfig :=
  (Builder.getConfig Testnet Futurenet TestnetConfig FuturenetConfig MainnetConfig).
Local Abbreviation getDefaultHorizonURL :=
  (Builder.getDefaultHorizonURL Testnet Futurenet
     TestnetHorizonURL FuturenetHorizonURL MainnetHorizonURL).
Local Abbreviation WithHorizonURL :=
  (Builder.WithHorizonURL Error error_text WrapValidationError HTTPClient isValidURL).
Local Abbreviation WithAltURLs :=
  (Builder.WithAltURLs Error error_text WrapValidationError HTTPClient isValidURL).
Local Abbreviation first_invalid := (Builder.first_invalid Error isValidURL).

(** The builder the option loop of [NewClient] starts from. *)
Local Abbreviation start :=
  (Builder.set_token HTTPClient ERST_RPC_TOKEN (Builder.newBuilder HTTPClient Mainnet)).

Lemma is_empty_false (s : string) : s ≠ "" → Str.is_empty s = false.
Proof. destruct s; [congruence | reflexivity]. Qed.

Lemma is_empty_true (s : string) : Str.is_empty s = true → s = "".
Proof. destruct s; [reflexivity | discriminate]. Qed.

(** [validate] never fails; it fills in the network and, when neither URL
    is set, the primary URL. *)
Lemma validate_returns (b : clientBuilder) : snd (validate b) = None.
Proof. reflexivity. Qed.

Lemma validate_builder (b : clientBuilder) :
  fst (validate b) =
    let net := if Str.is_empty (Builder.network _ b) then Mainnet
               else Builder.network _ b in
    let url := if Str.is_empty (Builder.horizonURL _ b)
                  && Str.is_empty (Builder.sorobanURL _ b)
               then getDefaultHorizonURL net else Builder.horizonURL _ b in
    Builder.set_horizonURL _ url (Builder.set_network _ net b).
Proof.
  destruct b as [net tok hurl surl alts cache cfg http tmo hdrs].
  destruct net, hurl, surl; reflexivity.
Qed.

(** [build] never fails.  The primary URL falls back to the network
    configuration, the alternate list to the primary URL alone. *)
Lemma build_client (b : clientBuilder) :
  ∃ c, snd (build b) = (Some c, None)
       ∧ Builder.HorizonURL _ c =
           (if Str.is_empty (Builder.horizonURL _ b)
            then cfg_HorizonURL
                   (default (getConfig (Builder.network _ b)) (Builder.config _ b))
            else Builder.horizonURL _ b)
       ∧ Builder.AltURLs _ c =
           match Builder.altURLs _ b with
           | [] => [Builder.HorizonURL _ c]
           | urls => urls
           end
       ∧ {| Tracker.failures := Builder.failures _ c;
            Tracker.lastFailure := Builder.lastFailure _ c |} = Tracker.init.
Proof.
  destruct b as [net tok hurl surl alts cache cfg http tmo hdrs].
  destruct hurl, surl, alts;
    (eexists; split; [lazy; reflexivity |]);
    (split; [reflexivity |]); (split; [reflexivity |]); reflexivity.
Qed.

Lemma build_returns (b : clientBuilder) :
  ∃ c, snd (build b) = (Some c, None).
Proof. destruct (build_client b) as (c & Hc & _). eauto. Qed.

Lemma NewClient_unfold (opts : list ClientOption) :
  NewClient opts =
    match applyOptions opts start with
    | (_, Some err) => (None, Some err)
    | (builder, None) => snd (build (fst (validate builder)))
    end.
Proof.
  unfold Builder.NewClient.
  change (Str.is_empty (Builder.token _ (Builder.newBuilder _ Mainnet))) with true.
  cbv beta iota zeta.
  destruct (applyOptions opts _) as [b [e|]]; [reflexivity |].
  pose proof (validate_returns b) as Hv.
  destruct (validate b) as [b' e']. simpl in Hv. subst e'. reflexivity.
Qed.

Lemma applyOptions_app (pre post : list ClientOption) (b : clientBuilder) :
  applyOptions (pre ++ post) b =
    match applyOptions pre b with
    | (b', Some err) => (b', Some err)
    | (b', None) => applyOptions post b'
    end.
Proof.
  revert b. induction pre as [|opt pre IH]; intros b; simpl.
  - reflexivity.
  - destruct (opt b) as [b' [e|]]; [reflexivity | apply IH].
Qed.

(** A client and an error never come together, and one of them always
    comes. *)
Lemma NewClient_client_xor_error (opts : list ClientOption) :
  (∃ c, NewClient opts = (Some c, None)) ∨ (∃ e, NewClient opts = (None, Some e)).
Proof.
  rewrite NewClient_unfold.
  destruct (applyOptions opts _) as [b [e|]].
  - right. eauto.
  - left. apply build_returns.
Qed.

(** C4.  When the options before [f] succeed and [f] returns an error,
    [NewClient] returns that error and a nil client, and the option loop
    is left with the builder exactly as [f] left it, whatever options
    follow [f]: none of them is applied.  No call of [NewClient] returns
    a client together with an error. *)
Theorem NewClient_stops_at_first_error
    (pre post : list ClientOption) (f : ClientOption)
    (b1 b2 : clientBuilder) (e : Error) :
  applyOptions pre start = (b1, None) →
  f b1 = (b2, Some e) →
  NewClient (pre ++ f :: post) = (None, Some e)
  ∧ applyOptions (pre ++ f :: post) start = (b2, Some e)
  ∧ ∀ opts c err, NewClient opts ≠ (Some c, Some err).
Proof.
  intros Hpre Hf.
  assert (Hloop : applyOptions (pre ++ f :: post) start = (b2, Some e)).
  { rewrite applyOptions_app, Hpre. simpl. rewrite Hf. reflexivity. }
  split; [| split].
  - rewrite NewClient_unfold, Hloop. reflexivity.
  - exact Hloop.
  - intros opts c err H.
    destruct (NewClient_client_xor_error opts) as [[c' Hc] | [e' He]];
      congruence.
Qed.

(** Whatever the options did, the client's alternate list is not empty,
    and its two failure maps are empty. *)
Lemma NewClient_AltURLs_nonempty (opts : list ClientOption) c :
  NewClient opts = (Some c, None) → Builder.AltURLs _ c ≠ [].
Proof.
  rewrite NewClient_unfold.
  destruct (applyOptions opts _) as [b [e|]]; [discriminate |].
  destruct (build_client (fst (validate b))) as (c' & -> & _ & Halt & _).
  intros [= <-]. rewrite Halt. by destruct (Builder.altURLs _ _).
Qed.

Lemma NewClient_tracker_init (opts : list ClientOption) c :
  NewClient opts = (Some c, None) →
  {| Tracker.failures := Builder.failures _ c;
     Tracker.lastFailure := Builder.lastFailure _ c |} = Tracker.init.
Proof.
  rewrite NewClient_unfold.
  destruct (applyOptions opts _) as [b [e|]]; [discriminate |].
  destruct (build_client (fst (validate b))) as (c' & -> & _ & _ & Hinit).
  by intros [= <-].
Qed.

(** What [NewClient] returns when the options leave a builder with a
    primary URL. *)
Lemma NewClient_with_horizonURL (opts : list ClientOption) (b : clientBuilder) :
  applyOptions opts start = (b, None) →
  Builder.horizonURL _ b ≠ "" →
  ∃ c, NewClient opts = (Some c, None)
       ∧ Builder.HorizonURL _ c = Builder.horizonURL _ b
       ∧ Builder.AltURLs _ c =
           match Builder.altURLs _ b with
           | [] => [Builder.horizonURL _ b]
           | urls => urls
           end.
Proof.
  intros Hopts Hurl. apply is_empty_false in Hurl.
  rewrite NewClient_unfold, Hopts.
  destruct (build_client (fst (validate b))) as (c & Hc & Hh & Ha & _).
  exists c. split; [exact Hc |]. clear Hc Hopts.
  rewrite validate_builder in Hh, Ha.
  destruct b as [net tok hurl surl alts cache cfg http tmo hdrs].
  cbn in Hurl, Hh, Ha. rewrite Hurl in Hh. cbn in Hh. rewrite Hurl in Hh.
  cbn. split; [exact Hh |]. rewrite Ha, Hh. reflexivity.
Qed.

(** After any options that succeeded, [WithHorizonURL] with a valid,
    non-empty URL as the last option gives a client with that primary URL
    and the one-element alternate list. *)
Lemma WithHorizonURL_last (pre : list ClientOption) (b : clientBuilder) (url : string) :
  applyOptions pre start = (b, None) →
  url ≠ "" → isValidURL url = None →
  ∃ c, NewClient (pre ++ [WithHorizonURL url]) = (Some c, None)
       ∧ Builder.HorizonURL _ c = url ∧ Builder.AltURLs _ c = [url].
Proof.
  intros Hpre Hne Hvalid.
  apply (NewClient_with_horizonURL _
           (Builder.set_altURLs _ [url] (Builder.set_horizonURL _ url b)));
    [| exact Hne].
  rewrite applyOptions_app, Hpre.
  unfold Builder.applyOptions, Builder.WithHorizonURL.
  rewrite (is_empty_false _ Hne), Hvalid. reflexivity.
Qed.

(** C3, at [NewClient(WithHorizonURL(""))].  The option stores the list
    [[""]], the primary URL is then defaulted for the network, and the
    client leaves with an alternate list whose first element is not its
    primary URL. *)
Theorem WithHorizonURL_empty_AltURLs :
  getDefaultHorizonURL Mainnet ≠ "" →
  ∃ c, NewClient [WithHorizonURL ""] = (Some c, None)
       ∧ Builder.AltURLs _ c = [""]
       ∧ Builder.HorizonURL _ c = getDefaultHorizonURL Mainnet
       ∧ head (Builder.AltURLs _ c) ≠ Some (Builder.HorizonURL _ c).
Proof.
  intros Hd. apply is_empty_false in Hd as Hd'.
  rewrite NewClient_unfold.
  change (applyOptions [WithHorizonURL ""] start)
    with (Builder.set_altURLs _ [""] (Builder.set_horizonURL _ "" start),
          @None Error).
  cbv beta iota.
  destruct (build_client
              (fst (validate (Builder.set_altURLs _ [""]
                                (Builder.set_horizonURL _ "" start)))))
    as (c & Hc & Hh & Ha & _).
  exists c. split; [exact Hc |].
  rewrite validate_builder in Hh, Ha. simpl in Hh, Ha.
  assert (Hnet : (if Str.is_empty Mainnet then Mainnet else Mainnet) = Mainnet)
    by (destruct (Str.is_empty Mainnet); reflexivity).
  rewrite Hnet in Hh. rewrite Hd' in Hh.
  split; [exact Ha |]. split; [exact Hh |].
  rewrite Ha, Hh. simpl. congruence.
Qed.

Lemma first_invalid_None (urls : list string) :
  first_invalid urls = None ↔ Forall (λ u, isValidURL u = None) urls.
Proof.
  induction urls as [|u urls IH]; simpl.
  - split; [constructor | reflexivity].
  - destruct (isValidURL u) eqn:Hu.
    + split; [discriminate |]. intros H. inversion H. congruence.
    + rewrite IH. split; [by constructor |]. intros H. by inversion H.
Qed.

Lemma first_invalid_Some (urls : list string) u :
  u ∈ urls → isValidURL u ≠ None → ∃ err, first_invalid urls = Some err.
Proof.
  intros Hin Hu.
  destruct (first_invalid urls) as [err|] eqn:Hf; [eauto |].
  apply first_invalid_None in Hf.
  rewrite Forall_forall in Hf. specialize (Hf u Hin). contradiction.
Qed.

(** C8.  After any options that succeeded, [WithAltURLs(urls)] with every
    entry valid gives a client whose [HorizonURL] is the first entry and
    whose [AltURLs] is [urls].  With an invalid entry the option returns a
    validation error and leaves the builder as it found it, and
    [NewClient] returns that error and no client, whatever follows.
    The URL check is taken to reject the empty string. *)
Theorem WithAltURLs_all_or_nothing
    (pre : list ClientOption) (b : clientBuilder) (urls : list string) :
  isValidURL "" ≠ None →
  applyOptions pre start = (b, None) →
  (Forall (λ u, isValidURL u = None) urls →
   ∀ u1 rest, urls = u1 :: rest →
     ∃ c, NewClient (pre ++ [WithAltURLs urls]) = (Some c, None)
          ∧ Builder.HorizonURL _ c = u1
          ∧ Builder.AltURLs _ c = urls)
  ∧ (∀ u, u ∈ urls → isValidURL u ≠ None →
     ∃ msg, WithAltURLs urls b = (b, Some (WrapValidationError msg))
            ∧ ∀ post, NewClient (pre ++ WithAltURLs urls :: post)
                      = (None, Some (WrapValidationError msg))).
Proof.
  intros Hempty Hpre. split.
  - intros Hall u1 rest ->.
    assert (Hu1 : u1 ≠ "").
    { intros ->. inversion Hall. contradiction. }
    apply first_invalid_None in Hall.
    apply (NewClient_with_horizonURL _
             (Builder.set_horizonURL _ u1 (Builder.set_altURLs _ (u1 :: rest) b)));
      [| exact Hu1].
    rewrite applyOptions_app, Hpre.
    unfold Builder.applyOptions, Builder.WithAltURLs.
    rewrite Hall. reflexivity.
  - intros u Hin Hu.
    destruct (first_invalid_Some urls u Hin Hu) as [err Herr].
    exists ("invalid URL in altURLs: " +:+ error_text err).
    assert (Hopt : WithAltURLs urls b
                   = (b, Some (WrapValidationError
                                 ("invalid URL in altURLs: " +:+ error_text err)))).
    { unfold Builder.WithAltURLs. rewrite Herr. reflexivity. }
    split; [exact Hopt |].
    intros post.
    rewrite NewClient_unfold, applyOptions_app, Hpre. simpl.
    rewrite Hopt. reflexivity.
Qed.

(* --------------------------------------------------------------------- *)
(** ** What a client is made of                                           *)
(* --------------------------------------------------------------------- *)

Local Abbreviation getDefaultSorobanURL :=
  (Builder.getDefaultSorobanURL Testnet Futurenet
     TestnetSorobanURL FuturenetSorobanURL MainnetSorobanURL).
Local Abbreviation WithNetwork := (Builder.WithNetwork Error HTTPClient Mainnet).
Local Abbreviation WithToken := (Builder.WithToken Error HTTPClient).
Local Abbreviation WithHeaders := (Builder.WithHeaders Error HTTPClient).
Local Abbreviation WithCacheEnabled := (Builder.WithCacheEnabled Error HTTPClient).
Local Abbreviation WithRequestTimeout := (Builder.WithRequestTimeout Error HTTPClient).
Local Abbreviation WithHTTPClient := (Builder.WithHTTPClient Error HTTPClient).
Local Abbreviation WithSorobanURL :=
  (Builder.WithSorobanURL Error error_text WrapValidationError HTTPClient isValidURL).
Local Abbreviation WithNetworkConfig :=
  (Builder.WithNetworkConfig Error error_text WrapValidationError HTTPClient
     ValidateNetworkConfig).

(** The fields [build] copies or defaults, beside the two URL lists of
    [build_client]. *)
Lemma build_fields (b : clientBuilder) c :
  snd (build b) = (Some c, None) →
  Builder.cl_Network _ c = Builder.network _ b
  ∧ Builder.SorobanURL _ c =
      (if Str.is_empty (Builder.sorobanURL _ b)
       then getDefaultSorobanURL (Builder.network _ b)
       else Builder.sorobanURL _ b)
  ∧ Builder.Config _ c
    = default (getConfig (Builder.network _ b)) (Builder.config _ b)
  ∧ Builder.cl_httpClient _ c =
      default (createHTTPClient (Builder.token _ b) (Builder.headers _ b)
                 (Builder.requestTimeout _ b))
        (Builder.httpClient _ b)
  ∧ Builder.Horizon _ c =
      {| Builder.hc_HorizonURL := Builder.HorizonURL _ c;
         Builder.hc_HTTP := Builder.cl_httpClient _ c |}
  ∧ Builder.cl_token _ c = Builder.token _ b
  ∧ Builder.CacheEnabled _ c = Builder.cacheEnabled _ b
  ∧ Builder.Headers _ c = Builder.headers _ b.
Proof.
  destruct b as [net tok hurl surl alts cache cfg http tmo hdrs].
  destruct hurl, surl, alts; lazy; intros H; injection H as <-;
    repeat (split; [reflexivity |]); reflexivity.
Qed.

(** Every field of the client [NewClient] returns, from the builder the
    options left behind. *)
Lemma NewClient_fields (opts : list ClientOption) (b : clientBuilder) :
  applyOptions opts start = (b, None) →
  let net := if Str.is_empty (Builder.network _ b) then Mainnet
             else Builder.network _ b in
  let url := if Str.is_empty (Builder.horizonURL _ b)
                && Str.is_empty (Builder.sorobanURL _ b)
             then getDefaultHorizonURL net else Builder.horizonURL _ b in
  ∃ c, NewClient opts = (Some c, None)
    ∧ Builder.cl_Network _ c = net
    ∧ Builder.Config _ c = default (getConfig net) (Builder.config _ b)
    ∧ Builder.HorizonURL _ c =
        (if Str.is_empty url then cfg_HorizonURL (Builder.Config _ c) else url)
    ∧ Builder.SorobanURL _ c =
        (if Str.is_empty (Builder.sorobanURL _ b) then getDefaultSorobanURL net
         else Builder.sorobanURL _ b)
    ∧ Builder.AltURLs _ c =
        match Builder.altURLs _ b with
        | [] => [Builder.HorizonURL _ c]
        | urls => urls
        end
    ∧ Builder.cl_httpClient _ c =
        default (createHTTPClient (Builder.token _ b) (Builder.headers _ b)
                   (Builder.requestTimeout _ b))
          (Builder.httpClient _ b)
    ∧ Builder.Horizon _ c =
        {| Builder.hc_HorizonURL := Builder.HorizonURL _ c;
           Builder.hc_HTTP := Builder.cl_httpClient _ c |}
    ∧ Builder.cl_token _ c = Builder.token _ b
    ∧ Builder.CacheEnabled _ c = Builder.cacheEnabled _ b
    ∧ Builder.Headers _ c = Builder.headers _ b.
Proof.
  intros Hopts net url.
  rewrite NewClient_unfold, Hopts.
  destruct (build_client (fst (validate b))) as (c & Hc & Hh & Ha & _).
  destruct (build_fields _ c Hc) as (Hn & Hs & Hcfg & Hhttp & Hhor & Ht & Hce & Hhd).
  exists c. split; [exact Hc |]. clear Hc Hopts.
  rewrite validate_builder in *.
  destruct b as [bnet tok hurl surl alts cache cfg http tmo hdrs].
  cbn in *. fold net in Hn, Hs, Hcfg, Hh. fold url in Hh.
  rewrite Hcfg.
  repeat (split; [first [assumption | reflexivity] |]). assumption.
Qed.

Lemma NewClient_inv (opts : list ClientOption) c :
  NewClient opts = (Some c, None) → ∃ b, applyOptions opts start = (b, None).
Proof.
  rewrite NewClient_unfold.
  destruct (applyOptions opts start) as [b [e|]]; [discriminate | eauto].
Qed.

Lemma applyOptions_snoc (pre : list ClientOption) (opt : ClientOption)
    (b : clientBuilder) :
  applyOptions pre start = (b, None) →
  applyOptions (pre ++ [opt]) start = (fst (opt b), snd (opt b)).
Proof.
  intros Hpre. rewrite applyOptions_app, Hpre. simpl.
  destruct (opt b) as [b' [e|]]; reflexivity.
Qed.

(** X1.  [NewClient] returns an error exactly when the option loop ends
    with one, and then that error; [validate] and [build] add none.  When
    every option succeeds, a client is returned. *)
Theorem NewClient_fails_only_in_options (opts : list ClientOption) :
  (∀ e, NewClient opts = (None, Some e)
        ↔ ∃ b, applyOptions opts start = (b, Some e))
  ∧ ((∃ c, NewClient opts = (Some c, None))
     ↔ ∃ b, applyOptions opts start = (b, None)).
Proof.
  rewrite NewClient_unfold.
  destruct (applyOptions opts start) as [b [e|]]; cbv beta iota.
  - split.
    + intros e'. split; [intros [= <-]; eauto | intros [b' [= <- <-]]; reflexivity].
    + split; [intros [c Hc]; discriminate | intros [b' Hb]; discriminate].
  - destruct (build_returns (fst (validate b))) as [c Hc]. rewrite Hc.
    split.
    + intros e'. split; [discriminate | intros [b' Hb]; discriminate].
    + split; eauto.
Qed.

(** X2.  The alternate list of a returned client is never empty: it is
    the list the options left in the builder, or, when they left none,
    the client's primary URL alone. *)
Theorem NewClient_AltURLs (opts : list ClientOption) (b : clientBuilder) c :
  applyOptions opts start = (b, None) →
  NewClient opts = (Some c, None) →
  Builder.AltURLs _ c ≠ []
  ∧ (Builder.altURLs _ b = [] → Builder.AltURLs _ c = [Builder.HorizonURL _ c])
  ∧ (Builder.altURLs _ b ≠ [] → Builder.AltURLs _ c = Builder.altURLs _ b).
Proof.
  intros Hopts Hc.
  destruct (NewClient_fields opts b Hopts)
    as (c' & Hc' & _ & _ & _ & _ & Ha & _).
  assert (c' = c) as -> by congruence.
  rewrite Ha. destruct (Builder.altURLs _ b); repeat split; congruence.
Qed.

(** X3.  A returned client names a network: an empty network is replaced
    by Mainnet, by [WithNetwork] and again by [validate]. *)
Theorem NewClient_Network_nonempty (opts : list ClientOption) c :
  Mainnet ≠ "" →
  NewClient opts = (Some c, None) →
  Builder.cl_Network _ c ≠ "".
Proof.
  intros HM Hc. destruct (NewClient_inv opts c Hc) as [b Hopts].
  destruct (NewClient_fields opts b Hopts) as (c' & Hc' & Hn & _).
  assert (c' = c) as -> by congruence.
  rewrite Hn. destruct (Builder.network _ b) as [|a r]; simpl; congruence.
Qed.

(** X4.  With non-empty default Soroban URLs, a returned client has a
    Soroban URL: an empty one is replaced by the default of the client's
    network. *)
Theorem NewClient_SorobanURL_nonempty (opts : list ClientOption) c :
  TestnetSorobanURL ≠ "" → FuturenetSorobanURL ≠ "" → MainnetSorobanURL ≠ "" →
  NewClient opts = (Some c, None) →
  Builder.SorobanURL _ c ≠ "".
Proof.
  intros HT HF HM Hc. destruct (NewClient_inv opts c Hc) as [b Hopts].
  destruct (NewClient_fields opts b Hopts) as (c' & Hc' & _ & _ & _ & Hs & _).
  assert (c' = c) as -> by congruence.
  rewrite Hs. destruct (Builder.sorobanURL _ b) as [|a r]; simpl; [| congruence].
  unfold Builder.getDefaultSorobanURL. repeat case_match; assumption.
Qed.

(** X5.  The primary URL of a returned client is empty only if the URL
    of its network configuration is. *)
Theorem NewClient_HorizonURL_nonempty (opts : list ClientOption) c :
  NewClient opts = (Some c, None) →
  cfg_HorizonURL (Builder.Config _ c) ≠ "" →
  Builder.HorizonURL _ c ≠ "".
Proof.
  intros Hc Hcfg. destruct (NewClient_inv opts c Hc) as [b Hopts].
  destruct (NewClient_fields opts b Hopts) as (c' & Hc' & _ & _ & Hh & _).
  assert (c' = c) as -> by congruence.
  rewrite Hh. case_match eqn:Hu; [exact Hcfg |].
  intros Heq. rewrite Heq in Hu. discriminate Hu.
Qed.

(** X6.  The Horizon sub-client of a returned client has the client's
    primary URL and the client's HTTP client. *)
Theorem NewClient_Horizon_consistent (opts : list ClientOption) c :
  NewClient opts = (Some c, None) →
  Builder.hc_HorizonURL _ (Builder.Horizon _ c) = Builder.HorizonURL _ c
  ∧ Builder.hc_HTTP _ (Builder.Horizon _ c) = Builder.cl_httpClient _ c.
Proof.
  intros Hc. destruct (NewClient_inv opts c Hc) as [b Hopts].
  destruct (NewClient_fields opts b Hopts)
    as (c' & Hc' & _ & _ & _ & _ & _ & _ & Hhor & _).
  assert (c' = c) as -> by congruence.
  rewrite Hhor. split; reflexivity.
Qed.

Lemma network_or_Mainnet_idem (net : Network) :
  let n := if Str.is_empty net then Mainnet else net in
  (if Str.is_empty n then Mainnet else n) = n.
Proof. destruct net; simpl; [destruct Mainnet |]; reflexivity. Qed.

(** X7.  [WithNetwork(net)] alone: the client has the network (Mainnet
    for the empty name), and the default Horizon URL, Soroban URL and
    configuration of that network; the alternate list is that Horizon URL
    alone. *)
Theorem WithNetwork_selects_defaults (net : Network) :
  let n := if Str.is_empty net then Mainnet else net in
  getDefaultHorizonURL n ≠ "" →
  ∃ c, NewClient [WithNetwork net] = (Some c, None)
    ∧ Builder.cl_Network _ c = n
    ∧ Builder.HorizonURL _ c = getDefaultHorizonURL n
    ∧ Builder.SorobanURL _ c = getDefaultSorobanURL n
    ∧ Builder.Config _ c = getConfig n
    ∧ Builder.AltURLs _ c = [getDefaultHorizonURL n].
Proof.
  intros n Hd. apply is_empty_false in Hd.
  destruct (NewClient_fields [WithNetwork net] (Builder.set_network _ n start)
              eq_refl)
    as (c & Hc & Hn & Hcfg & Hh & Hs & Ha & _).
  cbn in Hn, Hcfg, Hh, Hs, Ha.
  pose proof (network_or_Mainnet_idem net) as Hidem. cbv zeta in Hidem.
  fold n in Hidem. rewrite Hidem in Hn, Hcfg, Hh, Hs.
  rewrite Hd in Hh.
  exists c. repeat (split; [assumption |]). rewrite Ha, Hh. reflexivity.
Qed.

(** X8.  A network name that is neither Testnet nor Futurenet is kept as
    the client's network, but the client gets Mainnet's Horizon URL,
    Soroban URL and configuration. *)
Theorem unknown_network_gets_Mainnet (net : Network) :
  net ≠ "" → net ≠ Testnet → net ≠ Futurenet → MainnetHorizonURL ≠ "" →
  ∃ c, NewClient [WithNetwork net] = (Some c, None)
    ∧ Builder.cl_Network _ c = net
    ∧ Builder.HorizonURL _ c = MainnetHorizonURL
    ∧ Builder.SorobanURL _ c = MainnetSorobanURL
    ∧ Builder.Config _ c = MainnetConfig.
Proof.
  intros Hne HT HF HM.
  apply String.eqb_neq in HT, HF.
  assert (Hn : (if Str.is_empty net then Mainnet else net) = net)
    by (rewrite is_empty_false; done).
  pose proof (WithNetwork_selects_defaults net) as H. cbv zeta in H.
  rewrite Hn in H.
  unfold Builder.getDefaultHorizonURL, Builder.getDefaultSorobanURL,
    Builder.getConfig in H.
  rewrite HT, HF in H.
  destruct (H HM) as (c & Hc & H1 & H2 & H3 & H4 & _).
  exists c. repeat (split; [assumption |]). assumption.
Qed.

(** X9.  [WithHorizonURL] and [WithSorobanURL] with a non-empty URL that
    fails the check return a validation error that names the option and
    leave the builder as it was; [NewClient] then returns that error. *)
Theorem single_URL_options_reject_invalid
    (pre post : list ClientOption) (b : clientBuilder) (url : string) (err : Error) :
  applyOptions pre start = (b, None) →
  url ≠ "" →
  isValidURL url = Some err →
  let eh := WrapValidationError ("invalid HorizonURL: " +:+ error_text err) in
  let es := WrapValidationError ("invalid SorobanURL: " +:+ error_text err) in
  WithHorizonURL url b = (b, Some eh)
  ∧ WithSorobanURL url b = (b, Some es)
  ∧ NewClient (pre ++ WithHorizonURL url :: post) = (None, Some eh)
  ∧ NewClient (pre ++ WithSorobanURL url :: post) = (None, Some es).
Proof.
  intros Hpre Hne Hinv eh es. apply is_empty_false in Hne.
  assert (H1 : WithHorizonURL url b = (b, Some eh)).
  { unfold Builder.WithHorizonURL. rewrite Hne, Hinv. reflexivity. }
  assert (H2 : WithSorobanURL url b = (b, Some es)).
  { unfold Builder.WithSorobanURL. rewrite Hne, Hinv. reflexivity. }
  split; [exact H1 |]. split; [exact H2 |].
  split.
  - apply (NewClient_stops_at_first_error pre post _ b b eh Hpre H1).
  - apply (NewClient_stops_at_first_error pre post _ b b es Hpre H2).
Qed.

(** X10.  [WithSorobanURL("")] is never checked; after any options it
    gives a client with the default Soroban URL of its network. *)
Theorem WithSorobanURL_empty_restores_default
    (pre : list ClientOption) (b : clientBuilder) :
  applyOptions pre start = (b, None) →
  ∃ c, NewClient (pre ++ [WithSorobanURL ""]) = (Some c, None)
    ∧ Builder.SorobanURL _ c = getDefaultSorobanURL (Builder.cl_Network _ c).
Proof.
  intros Hpre.
  destruct (NewClient_fields (pre ++ [WithSorobanURL ""])
              (Builder.set_sorobanURL _ "" b))
    as (c & Hc & Hn & _ & _ & Hs & _).
  { rewrite (applyOptions_snoc pre _ b Hpre). reflexivity. }
  exists c. split; [exact Hc |].
  destruct b as [net tok hurl surl alts cache cfg http tmo hdrs].
  cbn in Hn, Hs. rewrite Hs, Hn. reflexivity.
Qed.

(** X11.  When no option leaves a primary URL: with no Soroban URL
    either, the primary URL is the default Horizon URL of the client's
    network; with a Soroban URL it is taken from the client's network
    configuration instead. *)
Theorem HorizonURL_when_unset (opts : list ClientOption) (b : clientBuilder) c :
  applyOptions opts start = (b, None) →
  NewClient opts = (Some c, None) →
  Builder.horizonURL _ b = "" →
  (Builder.sorobanURL _ b = "" →
   getDefaultHorizonURL (Builder.cl_Network _ c) ≠ "" →
   Builder.HorizonURL _ c = getDefaultHorizonURL (Builder.cl_Network _ c))
  ∧ (Builder.sorobanURL _ b ≠ "" →
     Builder.HorizonURL _ c = cfg_HorizonURL (Builder.Config _ c)).
Proof.
  intros Hopts Hc Hh0.
  destruct (NewClient_fields opts b Hopts) as (c' & Hc' & Hn & _ & Hh & _).
  assert (c' = c) as -> by congruence.
  rewrite Hh0 in Hh. cbn in Hh. rewrite <- Hn in Hh. split.
  - intros Hs Hd. rewrite Hs in Hh. cbn in Hh.
    rewrite (is_empty_false _ Hd) in Hh. exact Hh.
  - intros Hs. rewrite (is_empty_false _ Hs) in Hh. exact Hh.
Qed.

(** X12.  [WithNetworkConfig(cfg)] as the last option, with a
    configuration that passes the check and has a name and a Horizon URL:
    the client has [cfg], its name as network, its Horizon URL, and its
    Soroban URL or, when that is empty, the default of the network.  The
    alternate list of earlier options stays.  A configuration that fails
    the check gives a validation error and leaves the builder alone. *)
Theorem WithNetworkConfig_applies
    (pre : list ClientOption) (b : clientBuilder) (cfg : NetworkConfig) :
  applyOptions pre start = (b, None) →
  (ValidateNetworkConfig cfg = None → Name cfg ≠ "" → cfg_HorizonURL cfg ≠ "" →
   ∃ c, NewClient (pre ++ [WithNetworkConfig cfg]) = (Some c, None)
     ∧ Builder.Config _ c = cfg
     ∧ Builder.cl_Network _ c = Name cfg
     ∧ Builder.HorizonURL _ c = cfg_HorizonURL cfg
     ∧ Builder.SorobanURL _ c =
         (if Str.is_empty (SorobanRPCURL cfg) then getDefaultSorobanURL (Name cfg)
          else SorobanRPCURL cfg)
     ∧ Builder.AltURLs _ c =
         match Builder.altURLs _ b with
         | [] => [cfg_HorizonURL cfg]
         | urls => urls
         end)
  ∧ (∀ err, ValidateNetworkConfig cfg = Some err →
     let e := WrapValidationError ("invalid network config: " +:+ error_text err) in
     WithNetworkConfig cfg b = (b, Some e)
     ∧ ∀ post, NewClient (pre ++ WithNetworkConfig cfg :: post) = (None, Some e)).
Proof.
  intros Hpre. split.
  - intros Hv Hname Hurl.
    apply is_empty_false in Hname, Hurl.
    destruct (NewClient_fields (pre ++ [WithNetworkConfig cfg])
                (Builder.set_sorobanURL _ (SorobanRPCURL cfg)
                   (Builder.set_horizonURL _ (cfg_HorizonURL cfg)
                      (Builder.set_network _ (Name cfg)
                         (Builder.set_config _ (Some cfg) b)))))
      as (c & Hc & Hn & Hcfg & Hh & Hs & Ha & _).
    { rewrite (applyOptions_snoc pre _ b Hpre).
      unfold Builder.WithNetworkConfig. rewrite Hv. reflexivity. }
    exists c. split; [exact Hc |].
    destruct b as [net tok hurl surl alts cache cfg0 http tmo hdrs].
    cbn in Hn, Hcfg, Hh, Hs, Ha.
    rewrite Hname in Hn, Hs. rewrite Hurl in Hh. cbn in Hh. rewrite Hurl in Hh.
    rewrite Hh in Ha. cbn. repeat (split; [assumption |]). assumption.
  - intros err Herr e.
    assert (Hopt : WithNetworkConfig cfg b = (b, Some e)).
    { unfold Builder.WithNetworkConfig. rewrite Herr. reflexivity. }
    split; [exact Hopt |]. intros post.
    apply (NewClient_stops_at_first_error pre post _ b b e Hpre Hopt).
Qed.

(** X13.  The last of the plain setters decides its field, whatever the
    options before it did: the token (also against the environment), the
    cache flag, the headers. *)
Theorem last_setter_wins (pre : list ClientOption) (b : clientBuilder) :
  applyOptions pre start = (b, None) →
  (∀ t, ∃ c, NewClient (pre ++ [WithToken t]) = (Some c, None)
             ∧ Builder.cl_token _ c = t)
  ∧ (∀ e, ∃ c, NewClient (pre ++ [WithCacheEnabled e]) = (Some c, None)
               ∧ Builder.CacheEnabled _ c = e)
  ∧ (∀ h, ∃ c, NewClient (pre ++ [WithHeaders h]) = (Some c, None)
               ∧ Builder.Headers _ c = h).
Proof.
  intros Hpre. split; [| split].
  - intros t.
    destruct (NewClient_fields (pre ++ [WithToken t]) (Builder.set_token _ t b))
      as (c & Hc & _ & _ & _ & _ & _ & _ & _ & Ht & _).
    { rewrite (applyOptions_snoc pre _ b Hpre). reflexivity. }
    exists c. split; [exact Hc | exact Ht].
  - intros e.
    destruct (NewClient_fields (pre ++ [WithCacheEnabled e])
                (Builder.set_cacheEnabled _ e b))
      as (c & Hc & _ & _ & _ & _ & _ & _ & _ & _ & Hce & _).
    { rewrite (applyOptions_snoc pre _ b Hpre). reflexivity. }
    exists c. split; [exact Hc | exact Hce].
  - intros h.
    destruct (NewClient_fields (pre ++ [WithHeaders h]) (Builder.set_headers _ h b))
      as (c & Hc & _ & _ & _ & _ & _ & _ & _ & _ & _ & Hhd).
    { rewrite (applyOptions_snoc pre _ b Hpre). reflexivity. }
    exists c. split; [exact Hc | exact Hhd].
Qed.

(** X14.  An HTTP client that an option put into the builder is the
    client's, as it is.  Otherwise the HTTP client is created once, after
    all options, from the token and the headers the client ends up with
    and the builder's request timeout; the order of those options does
    not matter. *)
Theorem NewClient_transport (opts : list ClientOption) (b : clientBuilder) c :
  applyOptions opts start = (b, None) →
  NewClient opts = (Some c, None) →
  (∀ h, Builder.httpClient _ b = Some h → Builder.cl_httpClient _ c = h)
  ∧ (Builder.httpClient _ b = None →
     Builder.cl_httpClient _ c =
       createHTTPClient (Builder.cl_token _ c) (Builder.Headers _ c)
         (Builder.requestTimeout _ b)).
Proof.
  intros Hopts Hc.
  destruct (NewClient_fields opts b Hopts)
    as (c' & Hc' & _ & _ & _ & _ & _ & Hhttp & _ & Ht & _ & Hhd).
  assert (c' = c) as -> by congruence.
  rewrite Hhttp, Ht, Hhd. split.
  - intros h ->. reflexivity.
  - intros ->. reflexivity.
Qed.

Lemma applyOptions_skip (pre post : list ClientOption) (f : ClientOption)
    (b0 : clientBuilder) :
  (∀ b, f b = (b, None)) →
  applyOptions (pre ++ f :: post) b0 = applyOptions (pre ++ post) b0.
Proof.
  intros Hf. rewrite !applyOptions_app.
  destruct (applyOptions pre b0) as [b [e|]]; [reflexivity |].
  simpl. rewrite Hf. reflexivity.
Qed.

(** X15.  [WithAltURLs] with the empty list changes nothing: taking it
    out of an option list gives the same result. *)
Theorem WithAltURLs_nil_is_noop (pre post : list ClientOption) :
  NewClient (pre ++ WithAltURLs [] :: post) = NewClient (pre ++ post).
Proof.
  rewrite !NewClient_unfold.
  rewrite (applyOptions_skip pre post (WithAltURLs [])); [reflexivity |].
  intros b. reflexivity.
Qed.

(** X16.  [NewClient()] without options: Mainnet with its default URLs
    and configuration, the cache on, no headers, the token of the
    environment, and an HTTP client created from that token with the
    fifteen-second timeout. *)
Theorem NewClient_default :
  getDefaultHorizonURL Mainnet ≠ "" →
  ∃ c, NewClient [] = (Some c, None)
    ∧ Builder.cl_Network _ c = Mainnet
    ∧ Builder.HorizonURL _ c = getDefaultHorizonURL Mainnet
    ∧ Builder.AltURLs _ c = [getDefaultHorizonURL Mainnet]
    ∧ Builder.SorobanURL _ c = getDefaultSorobanURL Mainnet
    ∧ Builder.Config _ c = getConfig Mainnet
    ∧ Builder.CacheEnabled _ c = true
    ∧ Builder.cl_token _ c = ERST_RPC_TOKEN
    ∧ Builder.Headers _ c = ∅
    ∧ Builder.cl_httpClient _ c
      = createHTTPClient ERST_RPC_TOKEN ∅ (15 * 1000000000).
Proof.
  intros Hd. apply is_empty_false in Hd.
  destruct (NewClient_fields [] start eq_refl)
    as (c & Hc & Hn & Hcfg & Hh & Hs & Ha & Hhttp & _ & Ht & Hce & Hhd).
  cbn in Hn, Hcfg, Hh, Hs, Ha, Hhttp, Ht, Hce, Hhd.
  assert (HM : (if Str.is_empty Mainnet then Mainnet else Mainnet) = Mainnet)
    by (destruct (Str.is_empty Mainnet); reflexivity).
  rewrite HM in Hn, Hcfg, Hh, Hs. rewrite Hd in Hh. rewrite Hh in Ha.
  exists c. repeat (split; [assumption |]). exact Hhttp.
Qed.

End BuilderProps.

(** The three theorems above at the sample parameters. *)
Lemma NewClient_stops_at_first_error_witness :
  let pre := [Sample.WithToken "t"] in
  let f := Sample.WithHorizonURL "not a valid url" in
  let post := [Sample.WithCacheEnabled false] in
  let e := Sample.WrapValidationError
             "invalid HorizonURL: not an absolute URL: not a valid url" in
  Sample.NewClient (pre ++ f :: post) = (None, Some e)
  ∧ snd (Builder.applyOptions _ _ (pre ++ f :: post)
           (Builder.set_token _ "" (Builder.newBuilder _ Sample.Mainnet)))
    = Some e.
Proof.
  intros pre f post e.
  destruct (NewClient_stops_at_first_error
              Sample.Error Sample.HTTPClient Sample.createHTTPClient
              Sample.Mainnet Sample.Testnet Sample.Futurenet
              Sample.TestnetHorizonURL Sample.FuturenetHorizonURL
              Sample.MainnetHorizonURL
              Sample.TestnetSorobanURL Sample.FuturenetSorobanURL
              Sample.MainnetSorobanURL
              Sample.TestnetConfig Sample.FuturenetConfig Sample.MainnetConfig
              "" pre post f
              (Builder.set_token _ "t" (Builder.newBuilder _ Sample.Mainnet))
              (Builder.set_token _ "t" (Builder.newBuilder _ Sample.Mainnet))
              e)
    as (Hnew & Hloop & _).
  - reflexivity.
  - vm_compute. reflexivity.
  - split; [exact Hnew |]. rewrite Hloop. reflexivity.
Defined.

Lemma WithHorizonURL_empty_AltURLs_witness :
  ∃ c, Sample.NewClient [Sample.WithHorizonURL ""] = (Some c, None)
       ∧ Builder.AltURLs _ c = [""]
       ∧ Builder.HorizonURL _ c = "https://horizon.stellar.org/"
       ∧ head (Builder.AltURLs _ c) ≠ Some (Builder.HorizonURL _ c).
Proof.
  apply (WithHorizonURL_empty_AltURLs
           Sample.Error Sample.error_text Sample.WrapValidationError
           Sample.HTTPClient Sample.createHTTPClient Sample.isValidURL
           Sample.Mainnet Sample.Testnet Sample.Futurenet
           Sample.TestnetHorizonURL Sample.FuturenetHorizonURL
           Sample.MainnetHorizonURL
           Sample.TestnetSorobanURL Sample.FuturenetSorobanURL
           Sample.MainnetSorobanURL
           Sample.TestnetConfig Sample.FuturenetConfig Sample.MainnetConfig "").
  vm_compute. discriminate.
Defined.

(** A second way to the same state: [WithNetworkConfig] replaces the
    primary URL and leaves the alternate list of an earlier
    [WithHorizonURL] behind. *)
Example WithNetworkConfig_after_WithHorizonURL :
  ∃ c, Sample.NewClient [Sample.WithHorizonURL "https://custom.horizon.org";
                         Sample.WithNetworkConfig Sample.TestnetConfig]
       = (Some c, None)
       ∧ Builder.HorizonURL _ c = Sample.TestnetHorizonURL
       ∧ Builder.AltURLs _ c = ["https://custom.horizon.org"].
Proof. eexists. split; [vm_compute; reflexivity | split; reflexivity]. Qed.

Lemma WithAltURLs_all_or_nothing_witness :
  (∃ c, Sample.NewClient [Sample.WithAltURLs ["https://url1.org"; "https://url2.org"]]
        = (Some c, None)
        ∧ Builder.HorizonURL _ c = "https://url1.org"
        ∧ Builder.AltURLs _ c = ["https://url1.org"; "https://url2.org"])
  ∧ (∃ msg, ∀ post,
       Sample.NewClient (Sample.WithAltURLs ["https://url1.org"; "not-a-url"] :: post)
       = (None, Some (Sample.WrapValidationError msg))).
Proof.
  split.
  - destruct (WithAltURLs_all_or_nothing
                Sample.Error Sample.error_text Sample.WrapValidationError
                Sample.HTTPClient Sample.createHTTPClient Sample.isValidURL
                Sample.Mainnet Sample.Testnet Sample.Futurenet
                Sample.TestnetHorizonURL Sample.FuturenetHorizonURL
                Sample.MainnetHorizonURL
                Sample.TestnetSorobanURL Sample.FuturenetSorobanURL
                Sample.MainnetSorobanURL
                Sample.TestnetConfig Sample.FuturenetConfig Sample.MainnetConfig
                "" [] (Builder.set_token _ "" (Builder.newBuilder _ Sample.Mainnet))
                ["https://url1.org"; "https://url2.org"])
      as [Hvalid _].
    + vm_compute. discriminate.
    + reflexivity.
    + apply (Hvalid ltac:(repeat (constructor; [vm_compute; reflexivity |]); constructor)
               "https://url1.org" ["https://url2.org"]).
      reflexivity.
  - destruct (WithAltURLs_all_or_nothing
                Sample.Error Sample.error_text Sample.WrapValidationError
                Sample.HTTPClient Sample.createHTTPClient Sample.isValidURL
                Sample.Mainnet Sample.Testnet Sample.Futurenet
                Sample.TestnetHorizonURL Sample.FuturenetHorizonURL
                Sample.MainnetHorizonURL
                Sample.TestnetSorobanURL Sample.FuturenetSorobanURL
                Sample.MainnetSorobanURL
                Sample.TestnetConfig Sample.FuturenetConfig Sample.MainnetConfig
                "" [] (Builder.set_token _ "" (Builder.newBuilder _ Sample.Mainnet))
                ["https://url1.org"; "not-a-url"])
      as [_ Hinvalid].
    + vm_compute. discriminate.
    + reflexivity.
    + destruct (Hinvalid "not-a-url") as (msg & _ & Hnew).
      * set_solver.
      * vm_compute. discriminate.
      * exists msg. exact Hnew.
Defined.

(* ===================================================================== *)
(** * The endpoint failure tracker: properties                            *)
(* ===================================================================== *)

Module TrackerProps.
Import Tracker.

Lemma consecutiveFailures_recordFailure url u now t :
  consecutiveFailures url (recordFailure u now t) =
    if decide (u = url) then (consecutiveFailures url t + 1)%Z
    else consecutiveFailures url t.
Proof.
  unfold consecutiveFailures at 1. simpl.
  case_decide as Hu.
  - subst. by rewrite lookup_insert_eq.
  - by rewrite lookup_insert_ne.
Qed.

Lemma consecutiveFailures_recordSuccess url u t :
  consecutiveFailures url (recordSuccess u t) =
    if decide (u = url) then 0%Z else consecutiveFailures url t.
Proof.
  unfold consecutiveFailures at 1. simpl.
  case_decide as Hu.
  - subst. by rewrite lookup_insert_eq.
  - by rewrite lookup_insert_ne.
Qed.

Lemma lastFailureAt_recordFailure url u now t :
  lastFailureAt url (recordFailure u now t) =
    if decide (u = url) then Some now else lastFailureAt url t.
Proof.
  unfold lastFailureAt. simpl.
  case_decide as Hu.
  - subst. by rewrite lookup_insert_eq.
  - by rewrite lookup_insert_ne.
Qed.

Lemma lastFailureAt_recordSuccess url u t :
  lastFailureAt url (recordSuccess u t) =
    if decide (u = url) then None else lastFailureAt url t.
Proof.
  unfold lastFailureAt. simpl.
  case_decide as Hu.
  - subst. by rewrite lookup_delete_eq.
  - by rewrite lookup_delete_ne.
Qed.

Lemma run_app ops1 ops2 t : run (ops1 ++ ops2) t = run ops2 (run ops1 t).
Proof. unfold run. apply foldl_app. Qed.

Lemma run_cons o ops t : run (o :: ops) t = run ops (step t o).
Proof. reflexivity. Qed.

(** A counter never goes below zero. *)
Lemma run_nonneg url ops t :
  (0 ≤ consecutiveFailures url t)%Z → (0 ≤ consecutiveFailures url (run ops t))%Z.
Proof.
  revert t. induction ops as [|o ops IH]; intros t Ht; [exact Ht |].
  rewrite run_cons. apply IH.
  destruct o as [u now | u]; simpl.
  - rewrite consecutiveFailures_recordFailure. case_decide; lia.
  - rewrite consecutiveFailures_recordSuccess. case_decide; lia.
Qed.

(** Calls for other endpoints leave an endpoint's entry alone. *)
Lemma run_untouched url ops t :
  Forall (λ o, touches url o = false) ops →
  consecutiveFailures url (run ops t) = consecutiveFailures url t
  ∧ lastFailureAt url (run ops t) = lastFailureAt url t.
Proof.
  intros H. revert t. induction H as [|o ops Ho _ IH]; intros t; [done |].
  rewrite run_cons. destruct (IH (step t o)) as [-> ->].
  destruct o as [u now | u]; simpl in *;
    apply orb_false_iff in Ho as [Hf Hs]; simpl in *.
  - apply bool_decide_eq_false in Hf.
    rewrite consecutiveFailures_recordFailure, lastFailureAt_recordFailure.
    by rewrite !decide_False.
  - apply bool_decide_eq_false in Hs.
    rewrite consecutiveFailures_recordSuccess, lastFailureAt_recordSuccess.
    by rewrite !decide_False.
Qed.

(** Without a success in between, the counter grows by the number of
    failures recorded for the endpoint. *)
Lemma run_counts_failures url ops t :
  Forall (λ o, is_success_of url o = false) ops →
  consecutiveFailures url (run ops t) =
    (consecutiveFailures url t
     + Z.of_nat (length (List.filter (is_failure_of url) ops)))%Z.
Proof.
  intros H. revert t. induction H as [|o ops Ho _ IH]; intros t.
  - simpl. lia.
  - rewrite run_cons, IH.
    destruct o as [u now | u]; simpl in *.
    + rewrite consecutiveFailures_recordFailure.
      destruct (decide (u = url)) as [-> | Hne].
      * rewrite bool_decide_eq_true_2 by done. simpl. lia.
      * rewrite bool_decide_eq_false_2 by done. lia.
    + apply bool_decide_eq_false in Ho.
      rewrite consecutiveFailures_recordSuccess, decide_False by done. lia.
Qed.

Section Policy.
Variables circuitBreakerThreshold circuitBreakerTimeout : Z.

Local Abbreviation isEligible :=
  (Tracker.isEligible circuitBreakerThreshold circuitBreakerTimeout).

(** A success makes the endpoint eligible at once, from any state. *)
Lemma isEligible_after_recordSuccess url now t :
  isEligible url now (recordSuccess url t) = true.
Proof.
  unfold Tracker.isEligible, breakerState.
  rewrite lastFailureAt_recordSuccess, decide_True by done. reflexivity.
Qed.

(** A new client's endpoints are all eligible. *)
Lemma isEligible_init url now : isEligible url now init = true.
Proof. reflexivity. Qed.

(** C1.  From a new client's tracker, after any calls [pre], let a run
    of calls hold no [recordSuccess(url)] and at least
    [circuitBreakerThreshold] calls of [recordFailure(url)], the last
    of them at time [last].  Then [isEligible(url)] is false as long as
    [circuitBreakerTimeout] has not elapsed since [last], true once it
    has, and true right after [recordSuccess(url)]. *)
Theorem breaker_opens_and_recovers
    (url : string) (pre before after : list op) (last : Z) :
  let burst := before ++ RecordFailure url last :: after in
  Forall (λ o, is_success_of url o = false) before →
  Forall (λ o, touches url o = false) after →
  (circuitBreakerThreshold
   ≤ Z.of_nat (length (List.filter (is_failure_of url) burst)))%Z →
  let t := run (pre ++ burst) init in
  (∀ now, (now - last < circuitBreakerTimeout)%Z → isEligible url now t = false)
  ∧ (∀ now, (circuitBreakerTimeout ≤ now - last)%Z → isEligible url now t = true)
  ∧ (∀ now, isEligible url now (recordSuccess url t) = true).
Proof.
  intros burst Hbefore Hafter Hcount t.
  assert (Hlast : lastFailureAt url t = Some last).
  { unfold t, burst. rewrite !run_app, run_cons.
    destruct (run_untouched url after
                (step (run before (run pre init)) (RecordFailure url last))
                Hafter) as [_ ->].
    simpl. rewrite lastFailureAt_recordFailure, decide_True by done.
    reflexivity. }
  assert (Hn : (circuitBreakerThreshold ≤ consecutiveFailures url t)%Z).
  { assert (Hnos : Forall (λ o, is_success_of url o = false) burst).
    { unfold burst. apply Forall_app. split; [exact Hbefore |].
      constructor; [reflexivity |].
      eapply Forall_impl; [exact Hafter |].
      intros o Ho. by apply orb_false_iff in Ho as [_ ?]. }
    unfold t. rewrite run_app, (run_counts_failures url burst _ Hnos).
    pose proof (run_nonneg url pre init) as Hpre.
    unfold consecutiveFailures at 1 in Hpre. simpl in Hpre.
    rewrite lookup_empty in Hpre. simpl in Hpre.
    specialize (Hpre ltac:(lia)). lia. }
  split; [| split].
  - intros now Hnow. unfold Tracker.isEligible, breakerState.
    rewrite Hlast.
    destruct (Z.ltb_spec (consecutiveFailures url t) circuitBreakerThreshold);
      [lia |].
    destruct (Z.ltb_spec (now - last) circuitBreakerTimeout); [done | lia].
  - intros now Hnow. unfold Tracker.isEligible, breakerState.
    rewrite Hlast.
    destruct (Z.ltb_spec (consecutiveFailures url t) circuitBreakerThreshold);
      [done |].
    destruct (Z.ltb_spec (now - last) circuitBreakerTimeout); [lia | done].
  - intros now. apply isEligible_after_recordSuccess.
Qed.
End Policy.

Lemma breaker_opens_and_recovers_witness :
  let url := "https://rpc1.com" in
  let t := run ([RecordFailure url 5; RecordSuccess url]
                ++ [RecordFailure url 10; RecordFailure url 20;
                    RecordFailure "https://rpc2.com" 25;
                    RecordFailure url 30; RecordFailure url 40]
                ++ RecordFailure url 50 :: [RecordSuccess "https://rpc2.com"])
             init in
  isEligible 5 60000 url 60049 t = false
  ∧ isEligible 5 60000 url 60050 t = true
  ∧ isEligible 5 60000 url 51 (recordSuccess url t) = true.
Proof.
  intros url t.
  destruct (breaker_opens_and_recovers 5 60000 url
              [RecordFailure url 5; RecordSuccess url]
              [RecordFailure url 10; RecordFailure url 20;
               RecordFailure "https://rpc2.com" 25;
               RecordFailure url 30; RecordFailure url 40]
              [RecordSuccess "https://rpc2.com"] 50)
    as (Hopen & Hhalf & Hclosed).
  - repeat constructor.
  - repeat constructor.
  - vm_compute. discriminate.
  - split; [apply Hopen; lia | split; [apply Hhalf; lia | apply Hclosed]].
Defined.

End TrackerProps.

(* ===================================================================== *)
(** * [RPCConfigParser]: properties                                       *)
(* ===================================================================== *)

Section ParserProps.
Variable number_to_string : string → string.
Variable url_protocol : string → option string.

Local Abbreviation isValidUrl := (RPCConfigParser.isValidUrl url_protocol).
Local Abbreviation valid_url := (RPCConfigParser.valid_url url_protocol).
Local Abbreviation unparseable := (RPCConfigParser.unparseable url_protocol).
Local Abbreviation warning := RPCConfigParser.warning.
Local Abbreviation filter_valid := (RPCConfigParser.filter_valid url_protocol).
Local Abbreviation parseUrls := (RPCConfigParser.parseUrls url_protocol).
Local Abbreviation parseHeaders := (RPCConfigParser.parseHeaders number_to_string).
Local Abbreviation resolveHeaders := (RPCConfigParser.resolveHeaders number_to_string).
Local Abbreviation loadConfig :=
  (RPCConfigParser.loadConfig number_to_string url_protocol).

Lemma valid_url_protocol u :
  valid_url u = true ↔ url_protocol u = Some "http:" ∨ url_protocol u = Some "https:".
Proof.
  unfold RPCConfigParser.valid_url, RPCConfigParser.isValidUrl.
  destruct (url_protocol u) as [p|]; simpl.
  - rewrite orb_true_iff, !String.eqb_eq. split; intros [?|?]; subst; auto;
      [left | right]; congruence.
  - split; [discriminate | intros [?|?]; discriminate].
Qed.

Lemma filter_valid_spec (l : list string) :
  filter_valid l
  = (List.filter valid_url l, warning <$> List.filter unparseable l).
Proof.
  induction l as [|u l IH]; [reflexivity |].
  simpl. rewrite IH.
  unfold RPCConfigParser.valid_url, RPCConfigParser.unparseable,
    RPCConfigParser.isValidUrl.
  destruct (url_protocol u) as [p|]; simpl.
  - destruct (_ || _); reflexivity.
  - reflexivity.
Qed.

(** C7, amended.  The candidates are the trimmed pieces of a
    comma-delimited string, or the entries of a list as they are given.
    [parseUrls] returns the candidates that pass the check, in their
    order, throws exactly when there is none, and writes one warning
    for each candidate that does not parse as a URL. *)
Theorem parseUrls_filters_candidates (input : string + list string) :
  let candidates :=
    match input with
    | inl str => Str.trim Str.JS <$> Str.split "," str
    | inr list => list
    end in
  let valid := List.filter valid_url candidates in
  fst (parseUrls input)
  = (if decide (valid = []) then Throw "No valid RPC URLs provided"
     else Return valid)
  ∧ ((∃ e, fst (parseUrls input) = Throw e) ↔ valid = [])
  ∧ valid `sublist_of` candidates
  ∧ snd (parseUrls input) = warning <$> List.filter unparseable candidates.
Proof.
  intros candidates valid.
  assert (Hc : RPCConfigParser.candidates input = candidates)
    by (destruct input; reflexivity).
  unfold RPCConfigParser.parseUrls. rewrite Hc, filter_valid_spec.
  fold valid. split; [| split; [| split]].
  - destruct valid; reflexivity.
  - destruct valid; simpl; split; eauto; try discriminate.
    intros [e He]. discriminate.
  - unfold valid. clear. induction candidates as [|u l IH]; simpl.
    + constructor.
    + destruct (valid_url u); by constructor.
  - destruct valid; reflexivity.
Qed.

Lemma filter_valid_url_Forall (l : list string) :
  Forall (λ u, valid_url u = true) (List.filter valid_url l).
Proof.
  apply Forall_forall. intros u Hu.
  apply list_elem_of_In, filter_In in Hu. tauto.
Qed.

Lemma truthy_rpc_Some (input : string + list string) :
  RPCConfigParser.truthy_rpc (Some input) = true ↔ input ≠ inl "".
Proof.
  destruct input as [[|c r] | l]; simpl; split; try done; congruence.
Qed.

(** C5, amended.  An option or variable that is the empty string counts
    as absent.  [loadConfig] takes its URLs from the [rpc] option when it
    is there and not the empty string; otherwise from [STELLAR_RPC_URLS]
    when that is set and not empty; otherwise it throws.  Whichever source
    is used, the result is that of [parseUrls] on it: the call throws, or
    the returned [urls] are not empty and all pass the check. *)
Theorem loadConfig_endpoint_source (options : Options) (env : gmap string string) :
  let r := loadConfig options env in
  let from input := result_map urls (fst r) = fst (parseUrls input) in
  let rpc_absent := opt_rpc options = None ∨ opt_rpc options = Some (inl "") in
  let env_absent :=
    env !! "STELLAR_RPC_URLS" = None ∨ env !! "STELLAR_RPC_URLS" = Some "" in
  (∀ input, opt_rpc options = Some input → input ≠ inl "" → from input)
  ∧ (rpc_absent → ∀ s, env !! "STELLAR_RPC_URLS" = Some s → s ≠ "" → from (inl s))
  ∧ (rpc_absent → env_absent → r = (Throw RPCConfigParser.no_urls_configured, []))
  ∧ (∀ cfg, fst r = Return cfg →
       urls cfg ≠ [] ∧ Forall (λ u, valid_url u = true) (urls cfg)).
Proof.
  intros r from rpc_absent env_absent.
  assert (Huse : ∀ input,
            RPCConfigParser.urlInput options env = Some input →
            input ≠ inl "" → from input).
  { intros input Hin Hne. unfold from, r, RPCConfigParser.loadConfig.
    rewrite Hin. rewrite (proj2 (truthy_rpc_Some input) Hne). simpl.
    destruct (parseUrls input) as [[l | e] w]; reflexivity. }
  assert (Habs : rpc_absent → RPCConfigParser.truthy_rpc (opt_rpc options) = false).
  { intros [H | H]; rewrite H; reflexivity. }
  split; [| split; [| split]].
  - intros input Hrpc Hne. apply Huse; [| exact Hne].
    unfold RPCConfigParser.urlInput.
    rewrite Hrpc, (proj2 (truthy_rpc_Some input) Hne). reflexivity.
  - intros Hno s Hs Hne. apply Huse; [| congruence].
    unfold RPCConfigParser.urlInput. rewrite (Habs Hno), Hs. reflexivity.
  - intros Hno Henv. unfold r, RPCConfigParser.loadConfig, RPCConfigParser.urlInput.
    rewrite (Habs Hno). destruct Henv as [H | H]; rewrite H; reflexivity.
  - intros cfg. unfold r, RPCConfigParser.loadConfig.
    destruct (RPCConfigParser.truthy_rpc (RPCConfigParser.urlInput options env));
      simpl; [| discriminate].
    destruct (RPCConfigParser.urlInput options env) as [input|]; [| discriminate].
    pose proof (parseUrls_filters_candidates input) as (Hfst & _ & _ & _).
    destruct (parseUrls input) as [[l | e] w]; simpl in *; [| discriminate].
    intros [= <-]. simpl.
    case_decide as Hv; [discriminate |].
    injection Hfst as ->. split; [exact Hv | apply filter_valid_url_Forall].
Qed.

(** C9.  When [loadConfig] returns and neither [timeout] nor [retries] is
    given, the configuration holds the defaults. *)
Theorem loadConfig_numeric_defaults
    (options : Options) (env : gmap string string) (cfg : RPCConfig) :
  fst (loadConfig options env) = Return cfg →
  opt_timeout options = None →
  opt_retries options = None →
  timeout cfg = 30000%Z ∧ retries cfg = 3%Z ∧ retryDelay cfg = 1000%Z
  ∧ circuitBreakerThreshold cfg = 5%Z ∧ circuitBreakerTimeout cfg = 60000%Z
  ∧ maxRedirects cfg = 5%Z.
Proof.
  unfold RPCConfigParser.loadConfig. intros H Ht Hr.
  destruct (negb _); [discriminate |].
  destruct (RPCConfigParser.urlInput options env) as [input|]; [| discriminate].
  destruct (parseUrls input) as [[l | e] w]; [| discriminate].
  simpl in H. injection H as <-. simpl. rewrite Ht, Hr. simpl. done.
Qed.

(** C10.  When [loadConfig] returns, the configuration has a [headers]
    field exactly when the header mapping it resolved from the option or
    the environment is not empty, and the field is then that mapping; a
    source that parses to the empty mapping leaves the field out. *)
Theorem loadConfig_headers_iff_nonempty
    (options : Options) (env : gmap string string) (cfg : RPCConfig) :
  fst (loadConfig options env) = Return cfg →
  (∀ h, headers cfg = Some h ↔ resolveHeaders options env = Some h ∧ h ≠ ∅)
  ∧ (resolveHeaders options env = Some ∅ → headers cfg = None)
  ∧ headers cfg ≠ Some ∅.
Proof.
  unfold RPCConfigParser.loadConfig. intros H.
  destruct (negb _); [discriminate |].
  destruct (RPCConfigParser.urlInput options env) as [input|]; [| discriminate].
  destruct (parseUrls input) as [[l | e] w]; [| discriminate].
  simpl in H. injection H as <-. simpl.
  destruct (resolveHeaders options env) as [h0|].
  - destruct (Nat.ltb_spec 0 (size h0)) as [Hpos | Hzero].
    + assert (h0 ≠ ∅) by (intros ->; rewrite map_size_empty in Hpos; lia).
      split; [| split]; [| congruence | congruence].
      intros h. split; [intros [= <-]; done | intros [[= <-] _]; done].
    + assert (h0 = ∅) as -> by (apply map_size_empty_iff; lia).
      split; [| split]; [| done | done].
      intros h. split; [done | intros [[= <-] ?]; done].
  - split; [| split]; [| done | done].
    intros h. split; [done | intros [? _]; done].
Qed.

End ParserProps.

(** ** The parser at concrete inputs *)

(** C7 as stated fails.  A list entry is not trimmed: the entry with a
    leading blank passes the check and is returned as it is, where the
    trimmed candidate was promised.  And an entry that parses as a URL of
    another scheme is dropped without a warning. *)
Lemma parseUrls_claim_fails :
  Sample.parseUrls (inr [" https://a.com"]) = (Return [" https://a.com"], [])
  ∧ List.filter (RPCConfigParser.valid_url Whatwg.protocol)
      (Stated.candidates (inr [" https://a.com"])) = ["https://a.com"]
  ∧ Sample.parseUrls (inl "https://valid.com,ftp://wrong.com")
    = (Return ["https://valid.com"], [])
  ∧ ¬ Stated.parseUrls_claim Whatwg.protocol.
Proof.
  split; [vm_compute; reflexivity |].
  split; [vm_compute; reflexivity |].
  split; [vm_compute; reflexivity |].
  intros H. destruct (H (inr [" https://a.com"])) as [Hfst _].
  vm_compute in Hfst. discriminate Hfst.
Qed.

(** C5 as stated fails.  The [rpc] option is present and holds the empty
    string; [parseUrls] on it throws, yet [loadConfig] returns the URLs of
    the environment variable. *)
Lemma loadConfig_claim_fails :
  let options := {| opt_rpc := Some (inl ""); opt_timeout := None;
                    opt_retries := None; opt_headers := None |} in
  let env : gmap string string := {[ "STELLAR_RPC_URLS" := "https://env1.com" ]} in
  Stated.endpoint_source options env = Some (inl "")
  ∧ fst (Sample.parseUrls (inl "")) = Throw "No valid RPC URLs provided"
  ∧ result_map urls (fst (Sample.loadConfig options env)) = Return ["https://env1.com"]
  ∧ ¬ Stated.loadConfig_claim (λ lexeme, lexeme) Whatwg.protocol.
Proof.
  intros options env.
  split; [reflexivity |].
  split; [vm_compute; reflexivity |].
  split; [vm_compute; reflexivity |].
  intros H. specialize (H options env).
  vm_compute in H. discriminate H.
Qed.

(** 'should use default values' *)
Lemma loadConfig_numeric_defaults_witness :
  let options := {| opt_rpc := Some (inl "https://rpc.com"); opt_timeout := None;
                    opt_retries := None; opt_headers := None |} in
  ∃ cfg, fst (Sample.loadConfig options ∅) = Return cfg
    ∧ timeout cfg = 30000%Z ∧ retries cfg = 3%Z ∧ retryDelay cfg = 1000%Z
    ∧ circuitBreakerThreshold cfg = 5%Z ∧ circuitBreakerTimeout cfg = 60000%Z
    ∧ maxRedirects cfg = 5%Z.
Proof.
  intros options.
  eexists. split; [vm_compute; reflexivity |].
  eapply (loadConfig_numeric_defaults (λ lexeme, lexeme) Whatwg.protocol options ∅);
    [vm_compute; reflexivity | reflexivity | reflexivity].
Defined.

(** A header string without a pair resolves to the empty mapping and
    leaves [headers] out; one with a pair puts it in. *)
Lemma loadConfig_headers_iff_nonempty_witness :
  let without := {| opt_rpc := Some (inl "https://rpc.com"); opt_timeout := None;
                    opt_retries := None; opt_headers := Some (inr "notvalid") |} in
  let with_pair := {| opt_rpc := Some (inl "https://rpc.com"); opt_timeout := None;
                      opt_retries := None; opt_headers := Some (inr "X-Auth=abc") |} in
  (∃ cfg, fst (Sample.loadConfig without ∅) = Return cfg ∧ headers cfg = None)
  ∧ (∃ cfg, fst (Sample.loadConfig with_pair ∅) = Return cfg
       ∧ headers cfg = Some {[ "X-Auth" := "abc" ]}).
Proof.
  intros without with_pair. split.
  - eexists. split; [vm_compute; reflexivity |].
    eapply (loadConfig_headers_iff_nonempty (λ lexeme, lexeme) Whatwg.protocol without ∅);
      vm_compute; reflexivity.
  - eexists. split; [vm_compute; reflexivity |].
    eapply (loadConfig_headers_iff_nonempty (λ lexeme, lexeme) Whatwg.protocol with_pair ∅).
    + vm_compute; reflexivity.
    + split; [vm_compute; reflexivity |].
      intros Heq. apply (f_equal size) in Heq. vm_compute in Heq. discriminate.
Defined.

(** The endpoint source in the three cases of C5. *)
Lemma loadConfig_endpoint_source_witness :
  let mk rpc := {| opt_rpc := rpc; opt_timeout := None;
                   opt_retries := None; opt_headers := None |} in
  let env : gmap string string :=
    {[ "STELLAR_RPC_URLS" := "https://env1.com,https://env2.com" ]} in
  result_map urls (fst (Sample.loadConfig (mk (Some (inl "https://rpc1.com"))) env))
  = fst (Sample.parseUrls (inl "https://rpc1.com"))
  ∧ result_map urls (fst (Sample.loadConfig (mk None) env))
    = fst (Sample.parseUrls (inl "https://env1.com,https://env2.com"))
  ∧ Sample.loadConfig (mk None) ∅
    = (Throw RPCConfigParser.no_urls_configured, []).
Proof.
  intros mk env. split; [| split].
  - destruct (loadConfig_endpoint_source (λ lexeme, lexeme) Whatwg.protocol
                (mk (Some (inl "https://rpc1.com"))) env) as (Hrpc & _ & _ & _).
    apply Hrpc; [reflexivity | discriminate].
  - destruct (loadConfig_endpoint_source (λ lexeme, lexeme) Whatwg.protocol
                (mk None) env) as (_ & Henv & _ & _).
    apply Henv; [left; reflexivity | reflexivity | discriminate].
  - destruct (loadConfig_endpoint_source (λ lexeme, lexeme) Whatwg.protocol
                (mk None) ∅) as (_ & _ & Hnone & _).
    apply Hnone; left; reflexivity.
Defined.

(* ===================================================================== *)
(** * The header parsers: properties                                      *)
(* ===================================================================== *)

Section JsonPath.
Variable number_to_string : string → string.





End JsonPath.

(** C2, at the specification's example [{"A":"1","B":2}].  The Go decoder
    refuses the number for a [map[string]string], so [ParseHeaders] falls
    through to the delimited pairs and returns keys and values with
    quotes and braces in them: neither ["A"] nor ["B"] is a key.  The
    TypeScript parser returns the mapping of the example. *)
Theorem ParseHeaders_json_number_value :
  let input := Json.text "{'A':'1','B':2}" in
  GoRpc.unmarshal_string_map input = None
  ∧ GoRpc.ParseHeaders input
    = {[ Json.text "{'A'" := Json.text "'1'"; Json.text "'B'" := "2}" ]}
  ∧ GoRpc.ParseHeaders input !! "A" = None
  ∧ GoRpc.ParseHeaders input !! "B" = None
  ∧ ∀ number_to_string,
      RPCConfigParser.parseHeaders number_to_string input
      = {[ "A" := "1"; "B" := "2" ]}.
Proof.
  intros input.
  split; [vm_compute; reflexivity |].
  split; [vm_compute; reflexivity |].
  split; [vm_compute; reflexivity |].
  split; [vm_compute; reflexivity |].
  intros number_to_string. vm_compute. reflexivity.
Qed.

(** C6, at the specification's example [a:b=c].  The TypeScript parser
    looks for ["="] first and only then for [":"], so the key is [a:b];
    the Go parser splits at the separator that comes first. *)
Theorem parseHeaders_separator_choice :
  (∀ number_to_string,
     RPCConfigParser.parseHeaders number_to_string "a:b=c" = {[ "a:b" := "c" ]})
  ∧ GoRpc.ParseHeaders "a:b=c" = {[ "a" := "b=c" ]}.
Proof.
  split; [intros number_to_string |]; vm_compute; reflexivity.
Qed.

(* ===================================================================== *)
(** * Byte strings: facts                                                 *)
(* ===================================================================== *)

Module StrFacts.
Import Str.

Lemma app_cons a s t : String a s +:+ t = String a (s +:+ t).
Proof. reflexivity. Qed.

Lemma app_nil_r s : s +:+ "" = s.
Proof. induction s as [|a s IH]; [reflexivity |]. rewrite app_cons, IH. reflexivity. Qed.

Lemma app_assoc s t u : (s +:+ t) +:+ u = s +:+ (t +:+ u).
Proof.
  induction s as [|a s IH]; [reflexivity |]. rewrite !app_cons, IH. reflexivity.
Qed.

Lemma rev_app_spec s t : String.rev_app s t = String.rev s +:+ t.
Proof.
  unfold String.rev. revert t. induction s as [|a s IH]; intros t; simpl.
  - reflexivity.
  - rewrite IH, (IH (String a "")), app_assoc. reflexivity.
Qed.

Lemma rev_cons a s : String.rev (String a s) = String.rev s +:+ String a "".
Proof. unfold String.rev at 1. simpl. apply rev_app_spec. Qed.

Lemma rev_app_distr s t : String.rev (s +:+ t) = String.rev t +:+ String.rev s.
Proof.
  induction s as [|a s IH].
  - simpl. rewrite app_nil_r. reflexivity.
  - rewrite app_cons, !rev_cons, IH, app_assoc. reflexivity.
Qed.

Lemma rev_involutive s : String.rev (String.rev s) = s.
Proof.
  induction s as [|a s IH]; [reflexivity |].
  rewrite rev_cons, rev_app_distr, IH. reflexivity.
Qed.

(** [index_where p s = None]: no byte of [s] satisfies [p]. *)
Lemma index_where_cons_None p a s :
  index_where p (String a s) = None ↔ p a = false ∧ index_where p s = None.
Proof.
  simpl. destruct (p a); [split; [discriminate | intros [? _]; discriminate] |].
  destruct (index_where p s); simpl; split; try done; intros [_ ?]; done.
Qed.

Lemma index_where_app_None p s t :
  index_where p (s +:+ t) = None
  ↔ index_where p s = None ∧ index_where p t = None.
Proof.
  induction s as [|a s IH].
  - simpl. tauto.
  - rewrite app_cons, !index_where_cons_None, IH. tauto.
Qed.

Lemma index_where_rev_None p s :
  index_where p (String.rev s) = None ↔ index_where p s = None.
Proof.
  induction s as [|a s IH]; [reflexivity |].
  rewrite rev_cons, index_where_app_None, !index_where_cons_None, IH.
  simpl. tauto.
Qed.

Lemma take_drop n s : take n s +:+ drop n s = s.
Proof.
  revert s. induction n as [|n IH]; intros [|a s]; simpl; try reflexivity.
  rewrite app_cons, IH. reflexivity.
Qed.

Lemma index_where_take p s i :
  index_where p s = Some i → index_where p (take i s) = None.
Proof.
  revert i. induction s as [|a s IH]; intros i; simpl; [discriminate |].
  destruct (p a) eqn:Hp.
  - intros [= <-]. reflexivity.
  - destruct (index_where p s) as [j|]; simpl; [| discriminate].
    intros [= <-]. simpl. rewrite Hp, (IH j eq_refl). reflexivity.
Qed.

Lemma index_where_drop_None p s n :
  index_where p s = None → index_where p (drop n s) = None.
Proof.
  intros H. rewrite <- (take_drop n s) in H.
  apply index_where_app_None in H. tauto.
Qed.

Lemma index_where_take_None p s n :
  index_where p s = None → index_where p (take n s) = None.
Proof.
  intros H. rewrite <- (take_drop n s) in H.
  apply index_where_app_None in H. tauto.
Qed.

(** Trimming removes a prefix and a suffix. *)
Lemma trim_left_suffix l s : ∃ pre, s = pre +:+ trim_left l s.
Proof.
  remember (String.length s) as n eqn:Hn.
  assert (Hle : String.length s ≤ n) by lia. clear Hn.
  revert s Hle. induction n as [|n IH]; intros s Hle.
  - destruct s; [exists ""; reflexivity | simpl in Hle; lia].
  - destruct s as [|a r]; [exists ""; reflexivity |].
    simpl in Hle. simpl.
    destruct (space1 a).
    { destruct (IH r ltac:(lia)) as [pre Hpre].
      exists (String a pre). rewrite app_cons, <- Hpre. reflexivity. }
    destruct r as [|b r2]; [exists ""; reflexivity |].
    simpl in Hle.
    destruct (space2 l a b).
    { destruct (IH r2 ltac:(lia)) as [pre Hpre].
      exists (String a (String b pre)). rewrite !app_cons, <- Hpre. reflexivity. }
    destruct r2 as [|c r3]; [exists ""; reflexivity |].
    simpl in Hle.
    destruct (space3 l a b c); [| exists ""; reflexivity].
    destruct (IH r3 ltac:(lia)) as [pre Hpre].
    exists (String a (String b (String c pre))).
    rewrite !app_cons, <- Hpre. reflexivity.
Qed.

Lemma trim_left_rev_suffix l s : ∃ pre, s = pre +:+ trim_left_rev l s.
Proof.
  remember (String.length s) as n eqn:Hn.
  assert (Hle : String.length s ≤ n) by lia. clear Hn.
  revert s Hle. induction n as [|n IH]; intros s Hle.
  - destruct s; [exists ""; reflexivity | simpl in Hle; lia].
  - destruct s as [|a r]; [exists ""; reflexivity |].
    simpl in Hle. simpl.
    destruct (space1 a).
    { destruct (IH r ltac:(lia)) as [pre Hpre].
      exists (String a pre). rewrite app_cons, <- Hpre. reflexivity. }
    destruct r as [|b r2]; [exists ""; reflexivity |].
    simpl in Hle.
    destruct (space2 l b a).
    { destruct (IH r2 ltac:(lia)) as [pre Hpre].
      exists (String a (String b pre)). rewrite !app_cons, <- Hpre. reflexivity. }
    destruct r2 as [|c r3]; [exists ""; reflexivity |].
    simpl in Hle.
    destruct (space3 l c b a); [| exists ""; reflexivity].
    destruct (IH r3 ltac:(lia)) as [pre Hpre].
    exists (String a (String b (String c pre))).
    rewrite !app_cons, <- Hpre. reflexivity.
Qed.

Lemma trim_substring l s : ∃ pre suf, s = pre +:+ trim l s +:+ suf.
Proof.
  unfold trim, trim_right.
  destruct (trim_left_suffix l s) as [pre Hpre].
  destruct (trim_left_rev_suffix l (String.rev (trim_left l s))) as [q Hq].
  exists pre, (String.rev q).
  rewrite <- rev_app_distr, <- Hq, rev_involutive. exact Hpre.
Qed.

Lemma trim_None p l s :
  index_where p s = None → index_where p (trim l s) = None.
Proof.
  intros H. destruct (trim_substring l s) as (pre & suf & Hs).
  rewrite Hs in H. apply index_where_app_None in H as [_ H].
  apply index_where_app_None in H. tauto.
Qed.

(** The pieces of [split]. *)
Lemma split_not_nil sep s : split sep s ≠ [].
Proof.
  induction s as [|a s IH]; simpl; [discriminate |].
  destruct (Ascii.eqb a sep); [discriminate |].
  destruct (split sep s); discriminate.
Qed.

Lemma split_pieces_free sep s :
  Forall (λ x, index_of sep x = None) (split sep s).
Proof.
  induction s as [|a s IH]; simpl.
  - repeat constructor.
  - destruct (Ascii.eqb a sep) eqn:Ha.
    + constructor; [reflexivity | exact IH].
    + destruct (split sep s) as [|h t]; [repeat constructor |].
      * unfold index_of. simpl. rewrite Ascii.eqb_sym, Ha. reflexivity.
      * inversion IH as [|? ? Hh Ht]; subst. constructor; [| exact Ht].
        unfold index_of in *. simpl. rewrite Ascii.eqb_sym, Ha, Hh. reflexivity.
Qed.

Lemma split_pieces_None p sep s :
  index_where p s = None →
  Forall (λ x, index_where p x = None) (split sep s).
Proof.
  induction s as [|a s IH]; simpl.
  - repeat constructor.
  - destruct (p a) eqn:Hp; [discriminate |].
    destruct (index_where p s) eqn:Hs; [discriminate |]. intros _.
    specialize (IH eq_refl).
    destruct (Ascii.eqb a sep).
    + constructor; [reflexivity | exact IH].
    + destruct (split sep s) as [|h t].
      * repeat constructor. simpl. rewrite Hp. reflexivity.
      * inversion IH as [|? ? Hh Ht]; subst. constructor; [| exact Ht].
        simpl. rewrite Hp, Hh. reflexivity.
Qed.

Lemma split_app sep s t :
  split sep (s +:+ String sep t) = split sep s ++ split sep t.
Proof.
  induction s as [|a s IH].
  - simpl. rewrite Ascii.eqb_refl. reflexivity.
  - rewrite app_cons. simpl. rewrite IH.
    destruct (Ascii.eqb a sep); [reflexivity |].
    pose proof (split_not_nil sep s) as Hne.
    destruct (split sep s) as [|h r]; [done | reflexivity].
Qed.

End StrFacts.

(* ===================================================================== *)
(** * The delimited pairs: properties                                     *)
(* ===================================================================== *)

Module PairFacts.
Import StrFacts.

Lemma foldl_invariant {A B : Type} (P : A → Prop) (Q : B → Prop)
    (f : A → B → A) (l : list B) (a : A) :
  P a → (∀ a b, P a → Q b → P (f a b)) → Forall Q l → P (foldl f a l).
Proof.
  intros Ha Hf Hl. revert a Ha.
  induction Hl as [|b l Hb _ IH]; intros a Ha; simpl; [exact Ha |].
  apply IH, Hf; assumption.
Qed.

Lemma foldl_filter_skip {A B : Type} (f : A → B → A) (keep : B → bool)
    (l : list B) (a : A) :
  (∀ a b, keep b = false → f a b = a) →
  foldl f a l = foldl f a (List.filter keep l).
Proof.
  intros Hskip. revert a. induction l as [|b l IH]; intros a; simpl; [reflexivity |].
  destruct (keep b) eqn:Hb; simpl.
  - apply IH.
  - rewrite (Hskip a b Hb). apply IH.
Qed.

Lemma is_empty_negb s : negb (Str.is_empty s) = true ↔ s ≠ "".
Proof. destruct s; simpl; split; congruence. Qed.

(** A round of the Go loop leaves the map alone or adds one pair, cut
    from the trimmed segment at its first separator. *)
Lemma go_parse_part_cases (headers : gmap string string) (part : string) :
  GoRpc.parse_part headers part = headers
  ∨ ∃ idx,
      let p := Str.trim Str.Go part in
      let key := Str.trim Str.Go (Str.take idx p) in
      let value := Str.trim Str.Go (Str.drop (idx + 1) p) in
      Str.index_where GoRpc.is_separator p = Some idx
      ∧ key ≠ "" ∧ value ≠ ""
      ∧ GoRpc.parse_part headers part = <[key := value]> headers.
Proof.
  unfold GoRpc.parse_part.
  destruct (Str.is_empty (Str.trim Str.Go part)); [left; reflexivity |].
  destruct (Str.index_where GoRpc.is_separator (Str.trim Str.Go part))
    as [idx|] eqn:Hidx; [| left; reflexivity].
  destruct (negb _ && negb _) eqn:Hkv; [| left; reflexivity].
  right. exists idx. apply andb_true_iff in Hkv as [Hk Hv].
  apply is_empty_negb in Hk, Hv. cbv zeta. auto.
Qed.

Lemma go_parse_part_no_separator (headers : gmap string string) (part : string) :
  Str.index_where GoRpc.is_separator part = None →
  GoRpc.parse_part headers part = headers.
Proof.
  intros H. destruct (go_parse_part_cases headers part)
    as [Hsame | (idx & Hidx & _)]; [exact Hsame |].
  cbv zeta in Hidx.
  rewrite (trim_None _ Str.Go part H) in Hidx. discriminate.
Qed.

(** The delimited path of [ParseHeaders]. *)
Lemma ParseHeaders_delimited (input : string) :
  GoRpc.unmarshal_string_map input = None →
  GoRpc.ParseHeaders input = foldl GoRpc.parse_part ∅ (Str.split "," input).
Proof.
  intros H. unfold GoRpc.ParseHeaders. rewrite H.
  destruct input; reflexivity.
Qed.

(** X17.  When the input does not decode as a JSON string map, every
    pair [ParseHeaders] returns has a non-empty key and a non-empty value;
    the key holds no ["="], [":"] or [","] and the value no [","]. *)
Theorem ParseHeaders_pairs_wellformed (input k v : string) :
  GoRpc.unmarshal_string_map input = None →
  GoRpc.ParseHeaders input !! k = Some v →
  k ≠ "" ∧ v ≠ ""
  ∧ Str.index_where GoRpc.is_separator k = None
  ∧ Str.index_of "," k = None
  ∧ Str.index_of "," v = None.
Proof.
  intros Hjson. rewrite (ParseHeaders_delimited input Hjson).
  pose (R := λ (k v : string),
          k ≠ "" ∧ v ≠ ""
          ∧ Str.index_where GoRpc.is_separator k = None
          ∧ Str.index_of "," k = None ∧ Str.index_of "," v = None).
  intros Hkv.
  assert (Hall : map_Forall R (foldl GoRpc.parse_part ∅ (Str.split "," input))).
  { apply (foldl_invariant (map_Forall R) (λ x, Str.index_of "," x = None)).
    - apply map_Forall_empty.
    - intros h part Hh Hpart.
      destruct (go_parse_part_cases h part)
        as [-> | (idx & Hidx & Hk & Hv & ->)]; [exact Hh |].
      cbv zeta in Hidx, Hk, Hv.
      apply map_Forall_insert_2; [| exact Hh].
      assert (Hp : Str.index_of "," (Str.trim Str.Go part) = None)
        by (apply trim_None; exact Hpart).
      repeat split; try assumption.
      + apply trim_None, (index_where_take _ _ _ Hidx).
      + apply trim_None, index_where_take_None, Hp.
      + apply trim_None, index_where_drop_None, Hp.
    - apply split_pieces_free. }
  exact (Hall k v Hkv).
Qed.

(** X18.  Segments without ["="] and [":"] add nothing: the result is
    that of the segments that have a separator, and it is empty when the
    input has none at all. *)
Theorem ParseHeaders_skips_plain_segments (input : string) :
  GoRpc.unmarshal_string_map input = None →
  let has_separator seg :=
    bool_decide (is_Some (Str.index_where GoRpc.is_separator seg)) in
  GoRpc.ParseHeaders input
  = foldl GoRpc.parse_part ∅ (List.filter has_separator (Str.split "," input))
  ∧ (Str.index_where GoRpc.is_separator input = None →
     GoRpc.ParseHeaders input = ∅).
Proof.
  intros Hjson has_separator. rewrite (ParseHeaders_delimited input Hjson).
  split.
  - apply foldl_filter_skip. intros h seg Hseg.
    apply go_parse_part_no_separator.
    apply bool_decide_eq_false in Hseg.
    destruct (Str.index_where _ seg); [exfalso; apply Hseg; eauto | reflexivity].
  - intros Hnone.
    apply (foldl_invariant (λ h, h = ∅)
             (λ x, Str.index_where GoRpc.is_separator x = None)).
    + reflexivity.
    + intros h seg -> Hseg. apply go_parse_part_no_separator, Hseg.
    + apply split_pieces_None, Hnone.
Qed.

(** X19.  Parsing two lists joined by a comma is parsing the first and
    going on with the segments of the second, so that a later pair
    overrides an earlier one with the same key. *)
Theorem ParseHeaders_comma_join (s1 s2 : string) :
  GoRpc.unmarshal_string_map s1 = None →
  GoRpc.unmarshal_string_map (s1 +:+ String "," s2) = None →
  GoRpc.ParseHeaders (s1 +:+ String "," s2)
  = foldl GoRpc.parse_part (GoRpc.ParseHeaders s1) (Str.split "," s2).
Proof.
  intros H1 H12.
  rewrite (ParseHeaders_delimited _ H12), (ParseHeaders_delimited _ H1).
  rewrite split_app, foldl_app. reflexivity.
Qed.

End PairFacts.

(* ===================================================================== *)
(** * [RPCConfigParser]: further properties                               *)
(* ===================================================================== *)

Section ParserFacts.
Import StrFacts PairFacts.
Variable number_to_string : string → string.
Variable url_protocol : string → option string.

Local Abbreviation valid_url := (RPCConfigParser.valid_url url_protocol).
Local Abbreviation unparseable := (RPCConfigParser.unparseable url_protocol).
Local Abbreviation parseUrls := (RPCConfigParser.parseUrls url_protocol).
Local Abbreviation parseHeaders := (RPCConfigParser.parseHeaders number_to_string).
Local Abbreviation parse_pair := RPCConfigParser.parse_pair.
Local Abbreviation loadConfig :=
  (RPCConfigParser.loadConfig number_to_string url_protocol).



(** A call of the TypeScript callback leaves the object alone or sets one
    property, cut from the pair at its first ["="], or at its first [":"]
    when it has no ["="]. *)
Lemma ts_parse_pair_cases (headers : gmap string string) (pair : string) :
  parse_pair headers pair = headers
  ∨ ∃ idx,
      let key := Str.trim Str.JS (Str.take idx pair) in
      let value := Str.trim Str.JS (Str.drop (idx + 1) pair) in
      (Str.index_of "=" pair = Some idx
       ∨ Str.index_of "=" pair = None ∧ Str.index_of ":" pair = Some idx)
      ∧ key ≠ "" ∧ value ≠ ""
      ∧ parse_pair headers pair = <[key := value]> headers.
Proof.
  unfold RPCConfigParser.parse_pair.
  assert (Hsep : ∀ idx,
    (Str.index_of "=" pair = Some idx
     ∨ Str.index_of "=" pair = None ∧ Str.index_of ":" pair = Some idx) →
    (if negb (Str.is_empty (Str.trim Str.JS (Str.take idx pair)))
        && negb (Str.is_empty (Str.trim Str.JS (Str.drop (idx + 1) pair)))
     then JsRt.set_property (Str.trim Str.JS (Str.take idx pair))
            (Str.trim Str.JS (Str.drop (idx + 1) pair)) headers
     else headers) = headers
    ∨ ∃ idx0,
        (Str.index_of "=" pair = Some idx0
         ∨ Str.index_of "=" pair = None ∧ Str.index_of ":" pair = Some idx0)
        ∧ Str.trim Str.JS (Str.take idx0 pair) ≠ ""
        ∧ Str.trim Str.JS (Str.drop (idx0 + 1) pair) ≠ ""
        ∧ (if negb (Str.is_empty (Str.trim Str.JS (Str.take idx pair)))
              && negb (Str.is_empty (Str.trim Str.JS (Str.drop (idx + 1) pair)))
           then JsRt.set_property (Str.trim Str.JS (Str.take idx pair))
                  (Str.trim Str.JS (Str.drop (idx + 1) pair)) headers
           else headers)
          = <[Str.trim Str.JS (Str.take idx0 pair)
              := Str.trim Str.JS (Str.drop (idx0 + 1) pair)]> headers).
  { intros idx Hidx.
    destruct (negb _ && negb _) eqn:Hkv; [| left; reflexivity].
    apply andb_true_iff in Hkv as [Hk Hv]. apply is_empty_negb in Hk, Hv.
    unfold JsRt.set_property. case_decide; [left; reflexivity |].
    right. exists idx. auto. }
  destruct (Str.index_of "=" pair) as [i|] eqn:Heq.
  - apply Hsep. left. reflexivity.
  - destruct (Str.index_of ":" pair) as [i|] eqn:Hcolon; [| left; reflexivity].
    apply Hsep. right. split; reflexivity.
Qed.

(** X22.  When the input is not a JSON object or array, every pair the
    TypeScript parser returns has a non-empty key and a non-empty value;
    the key holds no ["="] and no [","], the value no [","]. *)
Theorem ts_parseHeaders_pairs_wellformed (input k v : string) :
  (∀ obj, Json.parse input = Some obj → JsRt.is_object obj = false) →
  parseHeaders input !! k = Some v →
  k ≠ "" ∧ v ≠ ""
  ∧ Str.index_of "=" k = None
  ∧ Str.index_of "," k = None
  ∧ Str.index_of "," v = None.
Proof.
  intros Hjson.
  assert (Hdel : parseHeaders input = foldl parse_pair ∅ (Str.split "," input)).
  { unfold RPCConfigParser.parseHeaders.
    destruct (Json.parse input) as [obj|]; [| reflexivity].
    rewrite (Hjson obj eq_refl). reflexivity. }
  rewrite Hdel. clear Hdel Hjson.
  pose (R := λ (k v : string),
          k ≠ "" ∧ v ≠ "" ∧ Str.index_of "=" k = None
          ∧ Str.index_of "," k = None ∧ Str.index_of "," v = None).
  intros Hkv.
  assert (Hall : map_Forall R (foldl parse_pair ∅ (Str.split "," input))).
  { apply (foldl_invariant (map_Forall R) (λ x, Str.index_of "," x = None)).
    - apply map_Forall_empty.
    - intros h pair Hh Hpair.
      destruct (ts_parse_pair_cases h pair)
        as [-> | (idx & Hidx & Hk & Hv & ->)]; [exact Hh |].
      cbv zeta in Hk, Hv.
      apply map_Forall_insert_2; [| exact Hh].
      repeat split; try assumption.
      + apply trim_None. destruct Hidx as [Heq | [Hnone _]].
        * apply (index_where_take _ _ _ Heq).
        * apply index_where_take_None, Hnone.
      + apply trim_None, index_where_take_None, Hpair.
      + apply trim_None, index_where_drop_None, Hpair.
    - apply split_pieces_free. }
  exact (Hall k v Hkv).
Qed.

Lemma filter_valid_idem (l : list string) :
  List.filter valid_url (List.filter valid_url l) = List.filter valid_url l.
Proof.
  induction l as [|u l IH]; simpl; [reflexivity |].
  destruct (valid_url u) eqn:Hu; simpl; [rewrite Hu, IH |]; done.
Qed.

Lemma filter_unparseable_valid (l : list string) :
  List.filter unparseable (List.filter valid_url l) = [].
Proof.
  induction l as [|u l IH]; simpl; [reflexivity |].
  destruct (valid_url u) eqn:Hu; simpl; [| exact IH].
  rewrite IH. unfold RPCConfigParser.unparseable.
  unfold RPCConfigParser.valid_url, RPCConfigParser.isValidUrl in Hu.
  destruct (url_protocol u); [reflexivity | discriminate].
Qed.

(** X23.  A list [parseUrls] returned is returned again, unchanged and
    without a warning, when it is passed back in. *)
Theorem parseUrls_idempotent (input : string + list string) (l : list string) :
  fst (parseUrls input) = Return l →
  parseUrls (inr l) = (Return l, []).
Proof.
  intros Hin.
  pose proof (parseUrls_filters_candidates url_protocol input) as (Hfst & _).
  cbv zeta in Hfst. rewrite Hin in Hfst.
  case_decide as Hnil; [discriminate |]. injection Hfst as ->.
  pose proof (parseUrls_filters_candidates url_protocol
                (inr (List.filter valid_url
                        match input with
                        | inl str => Str.trim Str.JS <$> Str.split "," str
                        | inr list => list
                        end)))
    as (Hfst2 & _ & _ & Hsnd2).
  cbv zeta beta iota in Hfst2, Hsnd2.
  rewrite filter_valid_idem in Hfst2. rewrite filter_unparseable_valid in Hsnd2.
  rewrite decide_False in Hfst2 by exact Hnil.
  rewrite (surjective_pairing (parseUrls _)), Hfst2, Hsnd2. reflexivity.
Qed.

Lemma split_free sep s : Str.index_of sep s = None → Str.split sep s = [s].
Proof.
  unfold Str.index_of. induction s as [|a s IH]; simpl; [reflexivity |].
  destruct (Ascii.eqb sep a) eqn:Ha; [discriminate |].
  destruct (Str.index_where _ s) eqn:Hs; [discriminate |]. intros _.
  rewrite Ascii.eqb_sym, Ha, (IH eq_refl). reflexivity.
Qed.

Lemma split_concat (l : list string) :
  l ≠ [] →
  Forall (λ u, Str.index_of "," u = None) l →
  Str.split "," (String.concat "," l) = l.
Proof.
  intros Hne Hall. induction Hall as [|x l Hx Hl IH]; [done |].
  destruct l as [|y r].
  - simpl. apply split_free, Hx.
  - change (String.concat "," (x :: y :: r))
      with (x +:+ String "," (String.concat "," (y :: r))).
    rewrite split_app, (split_free _ _ Hx), IH by done. reflexivity.
Qed.

(** X24.  A list of entries without commas, joined by commas, parses as
    the list of the trimmed entries. *)
Theorem parseUrls_comma_join (l : list string) :
  l ≠ [] →
  Forall (λ u, Str.index_of "," u = None) l →
  parseUrls (inl (String.concat "," l)) = parseUrls (inr (Str.trim Str.JS <$> l)).
Proof.
  intros Hne Hall. unfold RPCConfigParser.parseUrls, RPCConfigParser.candidates.
  rewrite (split_concat l Hne Hall). reflexivity.
Qed.

Lemma loadConfig_returns (options : Options) (env : gmap string string)
    (cfg : RPCConfig) :
  fst (loadConfig options env) = Return cfg →
  ∃ input l w,
    RPCConfigParser.urlInput options env = Some input
    ∧ parseUrls input = (Return l, w)
    ∧ cfg = {|
        urls := l;
        timeout := RPCConfigParser.number_or (opt_timeout options) 30000;
        retries := RPCConfigParser.number_or (opt_retries options) 3;
        retryDelay := 1000;
        circuitBreakerThreshold := 5;
        circuitBreakerTimeout := 60000;
        maxRedirects := 5;
        headers :=
          match RPCConfigParser.resolveHeaders number_to_string options env with
          | Some h => if (0 <? size h)%nat then Some h else None
          | None => None
          end |}.
Proof.
  unfold RPCConfigParser.loadConfig. intros H.
  destruct (negb _); [discriminate |].
  destruct (RPCConfigParser.urlInput options env) as [input|] eqn:Hu;
    [| discriminate].
  destruct (parseUrls input) as [[l | e] w] eqn:Hp; [| discriminate].
  simpl in H. injection H as <-.
  exists input, l, w. split; [reflexivity |]. split; [exact Hp | reflexivity].
Qed.


(** X26.  The headers of the configuration come from the [headers]
    option when it is an object, even an empty one, or a non-empty
    string, and only otherwise from a non-empty [STELLAR_RPC_HEADERS];
    in each case an empty mapping is left out. *)
Theorem loadConfig_header_precedence
    (options : Options) (env : gmap string string) (cfg : RPCConfig) :
  fst (loadConfig options env) = Return cfg →
  let nonempty (h : gmap string string) :=
    if decide (h = ∅) then None else Some h in
  (∀ record, opt_headers options = Some (inl record) →
     headers cfg = nonempty record)
  ∧ (∀ str, opt_headers options = Some (inr str) → str ≠ "" →
       headers cfg = nonempty (parseHeaders str))
  ∧ (opt_headers options = None ∨ opt_headers options = Some (inr "") →
     (∀ str, env !! "STELLAR_RPC_HEADERS" = Some str → str ≠ "" →
        headers cfg = nonempty (parseHeaders str))
     ∧ (env !! "STELLAR_RPC_HEADERS" = None
        ∨ env !! "STELLAR_RPC_HEADERS" = Some "" → headers cfg = None)).
Proof.
  intros H nonempty. destruct (loadConfig_returns options env cfg H)
    as (input & l & w & _ & _ & ->). simpl.
  assert (Hsize : ∀ h : gmap string string,
            (if (0 <? size h)%nat then Some h else None) = nonempty h).
  { intros h. unfold nonempty. case_decide as Hh.
    - subst h. reflexivity.
    - destruct (Nat.ltb_spec 0 (size h)) as [_ | Hz]; [reflexivity |].
      exfalso. apply Hh, map_size_empty_iff. lia. }
  unfold RPCConfigParser.resolveHeaders.
  split; [| split].
  - intros record ->. apply Hsize.
  - intros str -> Hne. destruct str; [done |]. apply Hsize.
  - intros Hopt.
    assert (Henv : match opt_headers options with
                   | Some (inl record) => Some record
                   | Some (inr (String _ _ as str)) => Some (parseHeaders str)
                   | _ =>
                       if RPCConfigParser.truthy_env (env !! "STELLAR_RPC_HEADERS")
                       then parseHeaders <$> env !! "STELLAR_RPC_HEADERS"
                       else None
                   end
                   = if RPCConfigParser.truthy_env (env !! "STELLAR_RPC_HEADERS")
                     then parseHeaders <$> env !! "STELLAR_RPC_HEADERS"
                     else None).
    { destruct Hopt as [-> | ->]; reflexivity. }
    rewrite Henv. split.
    + intros str -> Hne. destruct str; [done |]. simpl. apply Hsize.
    + intros [-> | ->]; reflexivity.
Qed.

(** X27.  Whether [loadConfig] returns, which URLs it returns and which
    warnings it writes depend on the [rpc] option and the environment
    alone, not on the other options; and it throws one of two errors. *)
Theorem loadConfig_outcome_by_urls
    (options options' : Options) (env : gmap string string) :
  opt_rpc options = opt_rpc options' →
  result_map urls (fst (loadConfig options env))
  = result_map urls (fst (loadConfig options' env))
  ∧ snd (loadConfig options env) = snd (loadConfig options' env)
  ∧ ∀ e, fst (loadConfig options env) = Throw e →
         e = RPCConfigParser.no_urls_configured
         ∨ e = "No valid RPC URLs provided".
Proof.
  intros Hrpc. unfold RPCConfigParser.loadConfig, RPCConfigParser.urlInput.
  rewrite <- Hrpc.
  destruct (RPCConfigParser.truthy_rpc
              (if RPCConfigParser.truthy_rpc (opt_rpc options)
               then opt_rpc options else inl <$> env !! "STELLAR_RPC_URLS"));
    simpl; [| split; [reflexivity | split; [reflexivity |]]; intros e [= <-]; auto].
  destruct (if RPCConfigParser.truthy_rpc (opt_rpc options)
            then opt_rpc options else inl <$> env !! "STELLAR_RPC_URLS")
    as [input|]; [| split; [reflexivity | split; [reflexivity |]];
                    intros e [= <-]; auto].
  pose proof (parseUrls_filters_candidates url_protocol input) as (Hfst & _).
  cbv zeta in Hfst.
  destruct (parseUrls input) as [[l | e0] w]; simpl in *.
  - split; [reflexivity | split; [reflexivity |]]. intros e [=].
  - split; [reflexivity | split; [reflexivity |]]. intros e [= <-].
    case_decide; [injection Hfst as <-; auto | discriminate].
Qed.

End ParserFacts.

(* ===================================================================== *)
(** * The further properties at the sample parameters                     *)
(* ===================================================================== *)

Local Abbreviation at_sample thm :=
  (thm Sample.Error Sample.HTTPClient Sample.createHTTPClient
     Sample.Mainnet Sample.Testnet Sample.Futurenet
     Sample.TestnetHorizonURL Sample.FuturenetHorizonURL Sample.MainnetHorizonURL
     Sample.TestnetSorobanURL Sample.FuturenetSorobanURL Sample.MainnetSorobanURL
     Sample.TestnetConfig Sample.FuturenetConfig Sample.MainnetConfig "").

Local Abbreviation at_sample_url thm :=
  (thm Sample.Error Sample.error_text Sample.WrapValidationError
     Sample.HTTPClient Sample.createHTTPClient Sample.isValidURL
     Sample.Mainnet Sample.Testnet Sample.Futurenet
     Sample.TestnetHorizonURL Sample.FuturenetHorizonURL Sample.MainnetHorizonURL
     Sample.TestnetSorobanURL Sample.FuturenetSorobanURL Sample.MainnetSorobanURL
     Sample.TestnetConfig Sample.FuturenetConfig Sample.MainnetConfig "").

Local Abbreviation at_sample_cfg thm :=
  (thm Sample.Error Sample.error_text Sample.WrapValidationError
     Sample.HTTPClient Sample.createHTTPClient Sample.ValidateNetworkConfig
     Sample.Mainnet Sample.Testnet Sample.Futurenet
     Sample.TestnetHorizonURL Sample.FuturenetHorizonURL Sample.MainnetHorizonURL
     Sample.TestnetSorobanURL Sample.FuturenetSorobanURL Sample.MainnetSorobanURL
     Sample.TestnetConfig Sample.FuturenetConfig Sample.MainnetConfig "").

(** The builder the sample option loop starts from. *)
Local Abbreviation sample_start :=
  (Builder.set_token Sample.HTTPClient ""
     (Builder.newBuilder Sample.HTTPClient Sample.Mainnet)).

Lemma NewClient_AltURLs_witness :
  let opts := [Sample.WithAltURLs ["https://url1.org"; "https://url2.org"]] in
  ∃ c, Sample.NewClient opts = (Some c, None)
       ∧ Builder.AltURLs _ c ≠ []
       ∧ Builder.AltURLs _ c = ["https://url1.org"; "https://url2.org"].
Proof.
  intros opts.
  destruct (Sample.NewClient opts) as [[c|] [e|]] eqn:H;
    try (vm_compute in H; discriminate H).
  exists c. split; [reflexivity |].
  destruct (at_sample NewClient_AltURLs opts
              (Builder.set_horizonURL _ "https://url1.org"
                 (Builder.set_altURLs _ ["https://url1.org"; "https://url2.org"]
                    sample_start)) c)
    as (Hne & _ & Hsame).
  - vm_compute. reflexivity.
  - exact H.
  - split; [exact Hne |]. apply Hsame. discriminate.
Defined.

Lemma NewClient_Network_nonempty_witness :
  ∃ c, Sample.NewClient [Builder.WithNetwork _ _ Sample.Mainnet ""] = (Some c, None)
       ∧ Builder.cl_Network _ c ≠ "".
Proof.
  destruct (Sample.NewClient [Builder.WithNetwork _ _ Sample.Mainnet ""])
    as [[c|] [e|]] eqn:H; try (vm_compute in H; discriminate H).
  exists c. split; [reflexivity |].
  apply (at_sample NewClient_Network_nonempty
           [Builder.WithNetwork _ _ Sample.Mainnet ""] c); [discriminate | exact H].
Defined.

Lemma NewClient_SorobanURL_nonempty_witness :
  ∃ c, Sample.NewClient [Sample.WithToken "t"] = (Some c, None)
       ∧ Builder.SorobanURL _ c ≠ "".
Proof.
  destruct (Sample.NewClient [Sample.WithToken "t"])
    as [[c|] [e|]] eqn:H; try (vm_compute in H; discriminate H).
  exists c. split; [reflexivity |].
  apply (at_sample NewClient_SorobanURL_nonempty [Sample.WithToken "t"] c);
    [discriminate | discriminate | discriminate | exact H].
Defined.

Lemma NewClient_HorizonURL_nonempty_witness :
  let opts := [Builder.WithSorobanURL _ Sample.error_text Sample.WrapValidationError
                 _ Sample.isValidURL "https://soroban.example.org"] in
  ∃ c, Sample.NewClient opts = (Some c, None)
       ∧ Builder.HorizonURL _ c ≠ "".
Proof.
  intros opts.
  destruct (Sample.NewClient opts) as [[c|] [e|]] eqn:H;
    try (vm_compute in H; discriminate H).
  exists c. split; [reflexivity |].
  apply (at_sample NewClient_HorizonURL_nonempty opts c); [exact H |].
  vm_compute in H. injection H as <-. vm_compute. discriminate.
Defined.

Lemma NewClient_Horizon_consistent_witness :
  let opts := [Sample.WithHorizonURL "https://custom.horizon.org"] in
  ∃ c, Sample.NewClient opts = (Some c, None)
       ∧ Builder.hc_HorizonURL _ (Builder.Horizon _ c) = Builder.HorizonURL _ c
       ∧ Builder.hc_HTTP _ (Builder.Horizon _ c) = Builder.cl_httpClient _ c.
Proof.
  intros opts.
  destruct (Sample.NewClient opts) as [[c|] [e|]] eqn:H;
    try (vm_compute in H; discriminate H).
  exists c. split; [reflexivity |].
  apply (at_sample NewClient_Horizon_consistent opts c). exact H.
Defined.

(** TestBuilderWithNetworkTestnet *)
Lemma WithNetwork_selects_defaults_witness :
  ∃ c, Sample.NewClient [Builder.WithNetwork _ _ Sample.Mainnet Sample.Testnet]
       = (Some c, None)
    ∧ Builder.cl_Network _ c = Sample.Testnet
    ∧ Builder.HorizonURL _ c = Sample.TestnetHorizonURL
    ∧ Builder.SorobanURL _ c = Sample.TestnetSorobanURL
    ∧ Builder.Config _ c = Sample.TestnetConfig
    ∧ Builder.AltURLs _ c = [Sample.TestnetHorizonURL].
Proof.
  apply (at_sample WithNetwork_selects_defaults Sample.Testnet).
  vm_compute. discriminate.
Defined.

Lemma unknown_network_gets_Mainnet_witness :
  ∃ c, Sample.NewClient [Builder.WithNetwork _ _ Sample.Mainnet "tesnet"]
       = (Some c, None)
    ∧ Builder.cl_Network _ c = "tesnet"
    ∧ Builder.HorizonURL _ c = Sample.MainnetHorizonURL
    ∧ Builder.SorobanURL _ c = Sample.MainnetSorobanURL
    ∧ Builder.Config _ c = Sample.MainnetConfig.
Proof.
  apply (at_sample unknown_network_gets_Mainnet "tesnet"); discriminate.
Defined.

(** TestBuilderWithInvalidURL *)
Lemma single_URL_options_reject_invalid_witness :
  let err := "not an absolute URL: not a valid url" in
  let post := [Sample.WithToken "secret"; Sample.WithCacheEnabled false] in
  Sample.NewClient (Sample.WithHorizonURL "not a valid url" :: post)
  = (None, Some (Sample.WrapValidationError ("invalid HorizonURL: " +:+ err))).
Proof.
  intros err post.
  apply (at_sample_url single_URL_options_reject_invalid [] post sample_start
           "not a valid url" err); [reflexivity | discriminate |].
  vm_compute. reflexivity.
Defined.

Lemma WithSorobanURL_empty_restores_default_witness :
  let WithSorobanURL := Builder.WithSorobanURL _ Sample.error_text
                          Sample.WrapValidationError _ Sample.isValidURL in
  ∃ c, Sample.NewClient [WithSorobanURL "https://soroban.example.org";
                         WithSorobanURL ""] = (Some c, None)
    ∧ Builder.SorobanURL _ c = Sample.MainnetSorobanURL.
Proof.
  intros WithSorobanURL.
  destruct (at_sample_url WithSorobanURL_empty_restores_default
              [WithSorobanURL "https://soroban.example.org"]
              (Builder.set_sorobanURL _ "https://soroban.example.org" sample_start))
    as (c & Hc & Hs).
  - vm_compute. reflexivity.
  - exists c. split; [exact Hc |]. rewrite Hs.
    vm_compute in Hc. injection Hc as <-. reflexivity.
Defined.

Lemma HorizonURL_when_unset_witness :
  let opts := [Builder.WithSorobanURL _ Sample.error_text Sample.WrapValidationError
                 _ Sample.isValidURL "https://soroban.example.org"] in
  ∃ c, Sample.NewClient opts = (Some c, None)
       ∧ Builder.HorizonURL _ c = cfg_HorizonURL (Builder.Config _ c).
Proof.
  intros opts.
  destruct (Sample.NewClient opts) as [[c|] [e|]] eqn:H;
    try (vm_compute in H; discriminate H).
  exists c. split; [reflexivity |].
  destruct (at_sample HorizonURL_when_unset opts
              (Builder.set_sorobanURL _ "https://soroban.example.org" sample_start) c)
    as [_ Hcfg].
  - vm_compute. reflexivity.
  - exact H.
  - reflexivity.
  - apply Hcfg. discriminate.
Defined.

(** TestBuilderWithNetworkConfig *)
Lemma WithNetworkConfig_applies_witness :
  (∃ c, Sample.NewClient [Sample.WithNetworkConfig Sample.TestnetConfig]
        = (Some c, None)
     ∧ Builder.Config _ c = Sample.TestnetConfig
     ∧ Builder.cl_Network _ c = "testnet"
     ∧ Builder.HorizonURL _ c = Sample.TestnetHorizonURL)
  ∧ (∃ e, ∀ post,
       Sample.NewClient
         (Sample.WithNetworkConfig
            {| Name := ""; cfg_HorizonURL := "https://custom.org";
               NetworkPassphrase := "custom network"; SorobanRPCURL := "" |}
          :: post) = (None, Some e)).
Proof.
  split.
  - destruct (at_sample_cfg WithNetworkConfig_applies [] sample_start
                Sample.TestnetConfig eq_refl) as [Hok _].
    destruct Hok as (c & Hc & H1 & H2 & H3 & _);
      [vm_compute; reflexivity | discriminate | discriminate |].
    exists c. repeat (split; [assumption |]). assumption.
  - destruct (at_sample_cfg WithNetworkConfig_applies [] sample_start
                {| Name := ""; cfg_HorizonURL := "https://custom.org";
                   NetworkPassphrase := "custom network"; SorobanRPCURL := "" |}
                eq_refl) as [_ Hbad].
    destruct (Hbad "network name is required" eq_refl) as [_ Hnew].
    eexists. exact Hnew.
Defined.

(** TestBuilderWithToken, TestBuilderWithCacheEnabled *)
Lemma last_setter_wins_witness :
  (∃ c, Sample.NewClient [Sample.WithToken "first"; Sample.WithToken "test-token-123"]
        = (Some c, None) ∧ Builder.cl_token _ c = "test-token-123")
  ∧ (∃ c, Sample.NewClient [Sample.WithToken "first"; Sample.WithCacheEnabled false]
          = (Some c, None) ∧ Builder.CacheEnabled _ c = false).
Proof.
  destruct (at_sample last_setter_wins [Sample.WithToken "first"]
              (Builder.set_token _ "first" sample_start) eq_refl)
    as (Htok & Hcache & _).
  split; [apply Htok | apply Hcache].
Defined.

Lemma NewClient_transport_witness :
  let opts := [Builder.WithHeaders Sample.Error Sample.HTTPClient {[ "X-Test" := "header" ]};
               Sample.WithToken "t"] in
  ∃ c, Sample.NewClient opts = (Some c, None)
       ∧ Builder.cl_httpClient _ c
         = Sample.createHTTPClient "t" {[ "X-Test" := "header" ]} (15 * 1000000000).
Proof.
  intros opts.
  destruct (Sample.NewClient opts) as [[c|] [e|]] eqn:H;
    try (vm_compute in H; discriminate H).
  exists c. split; [reflexivity |].
  destruct (at_sample NewClient_transport opts
              (Builder.set_token _ "t"
                 (Builder.set_headers _ {[ "X-Test" := "header" ]} sample_start)) c)
    as [_ Hcreated].
  - reflexivity.
  - exact H.
  - rewrite (Hcreated eq_refl).
    vm_compute in H. injection H as <-. vm_compute. reflexivity.
Defined.

(** TestBuilderCreateDefaultClient *)
Lemma NewClient_default_witness :
  ∃ c, Sample.NewClient [] = (Some c, None)
    ∧ Builder.cl_Network _ c = Sample.Mainnet
    ∧ Builder.HorizonURL _ c = Sample.MainnetHorizonURL
    ∧ Builder.AltURLs _ c = [Sample.MainnetHorizonURL]
    ∧ Builder.CacheEnabled _ c = true.
Proof.
  destruct (at_sample NewClient_default) as (c & Hc & H1 & H2 & H3 & _ & _ & H4 & _).
  - vm_compute. discriminate.
  - exists c. repeat (split; [assumption |]). assumption.
Defined.

(** TestParseHeadersHelper, second half: the pair [Y:2]. *)
Lemma ParseHeaders_pairs_wellformed_witness :
  GoRpc.ParseHeaders "X=1,Y:2,Z=three" !! "Y" = Some "2"
  ∧ "Y" ≠ "" ∧ "2" ≠ ""
  ∧ Str.index_where GoRpc.is_separator "Y" = None
  ∧ Str.index_of "," "Y" = None
  ∧ Str.index_of "," "2" = None.
Proof.
  split; [vm_compute; reflexivity |].
  apply (PairFacts.ParseHeaders_pairs_wellformed "X=1,Y:2,Z=three" "Y" "2");
    vm_compute; reflexivity.
Defined.

Lemma ParseHeaders_skips_plain_segments_witness :
  GoRpc.ParseHeaders "X=1,notvalid,Y=2" = foldl GoRpc.parse_part ∅ ["X=1"; "Y=2"]
  ∧ GoRpc.ParseHeaders "notvalid" = ∅.
Proof.
  split.
  - apply (PairFacts.ParseHeaders_skips_plain_segments "X=1,notvalid,Y=2").
    vm_compute. reflexivity.
  - apply (PairFacts.ParseHeaders_skips_plain_segments "notvalid");
      vm_compute; reflexivity.
Defined.

Lemma ParseHeaders_comma_join_witness :
  GoRpc.ParseHeaders "A=1,B=2,A=3"
  = foldl GoRpc.parse_part (GoRpc.ParseHeaders "A=1,B=2") ["A=3"].
Proof.
  apply (PairFacts.ParseHeaders_comma_join "A=1,B=2" "A=3");
    vm_compute; reflexivity.
Defined.



(** 'should parse comma-separated headers from options' *)
Lemma ts_parseHeaders_pairs_wellformed_witness :
  Sample.parseHeaders "X-Auth=abc, X-Test:123" !! "X-Test" = Some "123"
  ∧ "X-Test" ≠ "" ∧ "123" ≠ ""
  ∧ Str.index_of "=" "X-Test" = None
  ∧ Str.index_of "," "X-Test" = None
  ∧ Str.index_of "," "123" = None.
Proof.
  split; [vm_compute; reflexivity |].
  apply (ts_parseHeaders_pairs_wellformed (λ lexeme, lexeme)
           "X-Auth=abc, X-Test:123" "X-Test" "123").
  - intros obj H. vm_compute in H. discriminate H.
  - vm_compute. reflexivity.
Defined.

Lemma parseUrls_idempotent_witness :
  Sample.parseUrls (inr ["https://valid.com"]) = (Return ["https://valid.com"], []).
Proof.
  apply (parseUrls_idempotent Whatwg.protocol
           (inl "https://valid.com,invalid-url,ftp://wrong.com")).
  vm_compute. reflexivity.
Defined.

(** 'should handle whitespace in URLs' *)
Lemma parseUrls_comma_join_witness :
  Sample.parseUrls (inl " https://rpc1.com , https://rpc2.com ")
  = Sample.parseUrls (inr ["https://rpc1.com"; "https://rpc2.com"]).
Proof.
  apply (parseUrls_comma_join Whatwg.protocol
           [" https://rpc1.com "; " https://rpc2.com "]).
  - discriminate.
  - repeat constructor.
Defined.


Lemma loadConfig_header_precedence_witness :
  let env : gmap string string := {[ "STELLAR_RPC_HEADERS" := "X-Env=foo" ]} in
  let mk h := {| opt_rpc := Some (inl "https://rpc.com"); opt_timeout := None;
                 opt_retries := None; opt_headers := h |} in
  (∃ cfg, fst (Sample.loadConfig (mk (Some (inl ∅))) env) = Return cfg
          ∧ headers cfg = None)
  ∧ (∃ cfg, fst (Sample.loadConfig (mk (Some (inr ""))) env) = Return cfg
            ∧ headers cfg = Some {[ "X-Env" := "foo" ]}).
Proof.
  intros env mk. split.
  - destruct (fst (Sample.loadConfig (mk (Some (inl ∅))) env)) as [cfg | e] eqn:H;
      [| vm_compute in H; discriminate H].
    exists cfg. split; [reflexivity |]. unfold Sample.loadConfig in H.
    destruct (loadConfig_header_precedence (λ lexeme, lexeme) Whatwg.protocol
                (mk (Some (inl ∅))) env cfg H)
      as (Hrecord & _).
    rewrite (Hrecord ∅ eq_refl). reflexivity.
  - destruct (fst (Sample.loadConfig (mk (Some (inr ""))) env)) as [cfg | e] eqn:H;
      [| vm_compute in H; discriminate H].
    exists cfg. split; [reflexivity |]. unfold Sample.loadConfig in H.
    destruct (loadConfig_header_precedence (λ lexeme, lexeme) Whatwg.protocol
                (mk (Some (inr ""))) env cfg H)
      as (_ & _ & Henv).
    destruct (Henv ltac:(right; reflexivity)) as [Hset _].
    rewrite (Hset "X-Env=foo" ltac:(reflexivity) ltac:(discriminate)).
    vm_compute. reflexivity.
Defined.

Lemma loadConfig_outcome_by_urls_witness :
  let mk h t := {| opt_rpc := Some (inl "https://a.com,not-a-url");
                   opt_timeout := t; opt_retries := None; opt_headers := h |} in
  result_map urls (fst (Sample.loadConfig (mk (Some (inr "garbage")) (Some 7%Z)) ∅))
  = result_map urls (fst (Sample.loadConfig (mk None None) ∅))
  ∧ snd (Sample.loadConfig (mk (Some (inr "garbage")) (Some 7%Z)) ∅)
    = snd (Sample.loadConfig (mk None None) ∅).
Proof.
  intros mk.
  destruct (loadConfig_outcome_by_urls (λ lexeme, lexeme) Whatwg.protocol
              (mk (Some (inr "garbage")) (Some 7%Z)) (mk None None) ∅ eq_refl)
    as (Hurls & Hwarn & _).
  split; assumption.
Defined.
